(** * violence.db: the path-addressed JSON store of [src/database.py]

    A shallow embedding of [LocalDatabase]: the key parser
    ([__deserialize_key]), the nested navigation ([__find_nested_data]), the
    persist step ([__update_database]) and the three public operations
    [get_data], [set_data] and [delete_data].

    Modelling decisions, all local to this header:
    - a Python [str] is the list of its code points ([list N]);
    - a value produced by [json.load] is a [json] tree; a [dict] is a
      [gmap] from strings to values, so two documents are equal exactly
      when Python's [==] on dicts says so (key order is irrelevant);
    - a file that the store can open holds a document: [json.dump]
      followed by [json.load] is the identity on the [json] trees that
      [json.dump] can write, and the root of the file is a mapping; a
      file that [json.dump] left half written is [Damaged], and the
      model says nothing of its content;
    - an exception is a value of [exn]; an operation that touches the file
      returns the file content after the call together with its outcome;
    - the timestamps [last_accessed] and [last_modified] are wall-clock
      bookkeeping and are left out of the engine; the module [Lifecycle]
      adds them, with the class-level instance and the files, and takes
      the clock as an argument. *)

From stdpp Require Import gmap list strings pretty.
From Stdlib Require Import NArith Ascii ssreflect.

Set Warnings "-register-all,-rewrite-rw".
Local Open Scope N_scope.

(** ** Python strings *)

Abbreviation pystr := (list N).

(** A literal: the code points of an ASCII string. *)
Definition u (s : string) : pystr := N_of_ascii <$> String.list_ascii_of_string s.

Module PyStr.

(** [str.isspace] on one code point: the ASCII table of CPython
    (TAB..CR, FS..US, SPACE) and the Unicode White_Space code points
    above it. *)
Definition isspace (c : N) : bool :=
  ((0x09 <=? c) && (c <=? 0x0D)) || ((0x1C <=? c) && (c <=? 0x20))
  || (c =? 0x85) || (c =? 0xA0) || (c =? 0x1680)
  || ((0x2000 <=? c) && (c <=? 0x200A))
  || (c =? 0x2028) || (c =? 0x2029) || (c =? 0x202F) || (c =? 0x205F)
  || (c =? 0x3000).

Fixpoint lstrip (s : pystr) : pystr :=
  match s with
  | c :: s' => if isspace c then lstrip s' else s
  | [] => []
  end.

Definition rstrip (s : pystr) : pystr := reverse (lstrip (reverse s)).

(** [s.strip()] *)
Definition strip (s : pystr) : pystr := rstrip (lstrip s).

(** [s.split(sep)] for a one-character separator: never an empty list,
    empty segments are kept. *)
Fixpoint split (sep : N) (s : pystr) : list pystr :=
  match s with
  | [] => [[]]
  | c :: s' =>
      if c =? sep then [] :: split sep s'
      else match split sep s' with
           | seg :: segs => (c :: seg) :: segs
           | [] => [[c]]
           end
  end.

(** [sep.join(segs)], used to state what [split] returns. *)
Fixpoint join (sep : N) (segs : list pystr) : pystr :=
  match segs with
  | [] => []
  | [seg] => seg
  | seg :: segs' => seg ++ sep :: join sep segs'
  end.

(** A string made of whitespace only. *)
Definition all_space (s : pystr) : Prop := Forall (λ c, isspace c = true) s.

End PyStr.

(** ** JSON values, exceptions *)

(** What [json.load] builds: [None], [bool], [int], [float] (named by the
    literal that [json.dump] writes for it), [str], [list], [dict]. *)
Inductive json : Type :=
  | JNull
  | JBool (b : bool)
  | JInt (n : Z)
  | JFloat (repr : pystr)
  | JStr (s : pystr)
  | JList (items : list json)
  | JDict (m : gmap pystr json).

Abbreviation document := (gmap pystr json).

Inductive exn : Type :=
  | KeyNotFoundError (key : pystr)   (* the repository's own exception *)
  | KeyError (key : pystr)           (* [d[k]] on an absent key *)
  | AttributeError                   (* a method the object does not have *)
  | TypeError                        (* wrong arity, or no item assignment *)
  | IndexError                       (* [l[0]] on an empty list *)
  | ValueError.                      (* raised by [json.dump]: [ValueError], or
                                        its subclass [UnicodeEncodeError] *)

Inductive result (A : Type) : Type :=
  | Ok (a : A)
  | Raise (e : exn).
Arguments Ok {A} a.
Arguments Raise {A} e.

(** The error monad, with stdpp's [x ← r; k]. *)
#[global] Instance result_bind : MBind result := λ A B k r,
  match r with
  | Ok a => k a
  | Raise e => Raise e
  end.

(** A [for] loop whose body may raise. *)
Fixpoint for_each {A B : Type} (body : A -> B -> result A) (a : A) (l : list B)
  : result A :=
  match l with
  | [] => Ok a
  | x :: l' => a' ← body a x; for_each body a' l'
  end.

(** ** The key parser *)

Definition SEP : N := 0x2F.   (* '/' *)

Record DeserializedKeysDict := mkKeys { main_key : pystr; subkeys : list pystr }.

(** [__deserialize_key]: [key = key.strip().split('/')], then [key[0]] and
    [key[1:]]. *)
Definition deserialize_key (key : pystr) : result DeserializedKeysDict :=
  let key := PyStr.split SEP (PyStr.strip key) in
  match key with
  | [] => Raise IndexError
  | k0 :: rest => Ok {| main_key := k0; subkeys := rest |}
  end.

(** [subkeys and len(subkeys) > 0] *)
Definition has_subkeys (subkeys : list pystr) : bool :=
  match subkeys with [] => false | _ => true end && (0 <? List.length subkeys)%nat.

(** ** Primitive operations on Python objects *)

Definition is_none (v : json) : bool :=
  match v with JNull => true | _ => false end.

Definition isinstance_dict (v : json) : bool :=
  match v with JDict _ => true | _ => false end.

(** [d[key]] on the root dict. *)
Definition getitem (d : document) (key : pystr) : result json :=
  match d !! key with
  | Some v => Ok v
  | None => Raise (KeyError key)
  end.

(** [obj.get(key, None)]: only a dict has the method. *)
Definition get_method (obj : json) (key : pystr) : result json :=
  match obj with
  | JDict m => Ok (default JNull (m !! key))
  | _ => Raise AttributeError
  end.

(** [obj.pop(key, None)]: a dict removes the key if it is there; a list
    refuses the second argument; the other objects have no [pop]. *)
Definition pop_method (obj : json) (key : pystr) : result json :=
  match obj with
  | JDict m => Ok (JDict (delete key m))
  | JList _ => Raise TypeError
  | _ => Raise AttributeError
  end.

(** [obj[key] = value] with a string key: only a dict accepts it. *)
Definition setitem (obj : json) (key : pystr) (value : json) : result json :=
  match obj with
  | JDict m => Ok (JDict (<[key := value]> m))
  | _ => Raise TypeError
  end.

(** ** [__find_nested_data]

    [current_dict] is a pointer into the tree that [json.load] built. The
    tree has no sharing, so the pointer is a value together with the
    chain of dicts it was reached through, innermost first; writing
    through the pointer is [plug]. *)

Record frame := Frame { parent : gmap pystr json; slot : pystr }.

Definition cursor : Type := json * list frame.

(** [current_dict = current_dict.setdefault(key, {})] *)
Definition setdefault_step (cur : cursor) (key : pystr) : result cursor :=
  match cur.1 with
  | JDict m => Ok (default (JDict ∅) (m !! key), Frame m key :: cur.2)
  | _ => Raise AttributeError
  end.

Definition plug (ctx : list frame) (v : json) : json :=
  foldl (fun child fr => JDict (<[slot fr := child]> (parent fr))) v ctx.

Definition find_nested_data (db_content : document) (key : pystr)
    (subkeys : list pystr) (operation : pystr) (value : json)
  : result (document * json) :=
  if has_subkeys subkeys then
    current_dict ← getitem db_content key;
    '(current_dict, ctx) ←
      for_each setdefault_step (current_dict, []) (removelast subkeys);
    current_dict ←
      (if bool_decide (operation = u "delete") then
         pop_method current_dict (List.last subkeys [])
       else if bool_decide (operation = u "set") then
         setitem current_dict (List.last subkeys []) value
       else Ok current_dict);
    Ok (<[key := plug ctx current_dict]> db_content, JNull)
  else
    v ← getitem db_content key; Ok (db_content, v).

(** ** The public operations *)

(** What [json.dump(..., ensure_ascii=False)] can write to a file opened
    with [encoding='utf-8']: every string and key must be free of
    surrogate code points (UTF-8 does not encode them; [json.load] builds
    one from the escape [\ud800]), and every [int] must have at most 4300
    decimal digits (CPython's default limit for the conversion of an
    [int] to text). Otherwise [json.dump] raises on the way. *)
Definition encodable (c : N) : bool :=
  negb ((0xD800 <=? c) && (c <=? 0xDFFF)).

Definition INT_STR_BOUND : Z := Eval vm_compute in (10 ^ 4300)%Z.

Fixpoint dumpable (v : json) : bool :=
  match v with
  | JNull | JBool _ | JFloat _ => true
  | JInt n => (Z.abs n <? INT_STR_BOUND)%Z
  | JStr s => forallb encodable s
  | JList items => forallb dumpable items
  | JDict m =>
      map_fold (λ k v' rest, forallb encodable k && dumpable v' && rest) true m
  end.

(** The file after an operation: the document it holds, or [Damaged] when
    [json.dump] raised after [seek(0)] and left the beginning of the new
    text over the old one, without [truncate]. *)
Inductive file_state : Type :=
  | Holds (doc : document)
  | Damaged.

(** [__update_database]: [seek(0)], [json.dump], [truncate], return
    [True]. When [json.dump] raises, the exception leaves the method
    before [truncate] and the file is left damaged. *)
Definition update_database (new_db_content : document)
  : file_state * result bool :=
  if dumpable (JDict new_db_content) then (Holds new_db_content, Ok true)
  else (Damaged, Raise ValueError).

(** A [with open(path, 'r+t')] block: an exception raised before the body
    reaches [__update_database] leaves the file as it was; after that the
    file is what [__update_database] left. *)
Definition with_file {A : Type} (file : document)
    (body : result (file_state * result A)) : file_state * result A :=
  match body with
  | Ok after => after
  | Raise e => (Holds file, Raise e)
  end.

Fixpoint get_loop (data : json) (subkeys : list pystr) : result json :=
  match subkeys with
  | [] => Ok data
  | subkey :: rest =>
      data ← get_method data subkey;
      if is_none data then Ok data else get_loop data rest
  end.

Definition get_data (file : document) (key : pystr) : result json :=
  let db := file in
  dk ← deserialize_key key;
  let key := main_key dk in
  let subkeys := subkeys dk in
  let data := default JNull (db !! key) in
  if has_subkeys subkeys && isinstance_dict data then get_loop data subkeys
  else Ok data.

Definition set_data (file : document) (key : pystr) (value : json)
  : file_state * result bool :=
  with_file file (
    let db := file in
    dk ← deserialize_key key;
    let key := main_key dk in
    let subkeys := subkeys dk in
    if negb (bool_decide (is_Some (db !! key))) then
      Raise (KeyNotFoundError key)
    else
      db ← (if has_subkeys subkeys then
               r ← find_nested_data db key subkeys (u "set") value;
               Ok r.1
             else Ok (<[key := value]> db));
      Ok (update_database db)).

Definition delete_data (file : document) (key : pystr)
  : file_state * result bool :=
  with_file file (
    let db := file in
    dk ← deserialize_key key;
    let key := main_key dk in
    let subkeys := subkeys dk in
    db ← (if has_subkeys subkeys then
             r ← find_nested_data db key subkeys (u "delete") JNull;
             Ok r.1
           else Ok (delete key db));
    Ok (update_database db)).

(** ** Reading the navigation loop as a recursion on the path

    [descend final cur path] is what the loop of [__find_nested_data]
    followed by its last statement leaves at the place [cur] was stored:
    [setdefault] along all keys but the last, [final] at the last
    ([loop_is_descend] below). *)

Fixpoint descend (final : json → pystr → result json) (cur : json)
    (path : list pystr) : result json :=
  match path with
  | [] => Ok cur
  | [k] => final cur k
  | k :: (_ :: _) as rest =>
      match cur with
      | JDict m =>
          r ← descend final (default (JDict ∅) (m !! k)) rest;
          Ok (JDict (<[k := r]> m))
      | _ => Raise AttributeError
      end
  end.

(** The last statement of [__find_nested_data], by operation. *)
Definition final_of (operation : pystr) (value : json)
  : json → pystr → result json :=
  λ current_dict last,
    if bool_decide (operation = u "delete") then pop_method current_dict last
    else if bool_decide (operation = u "set") then setitem current_dict last value
    else Ok current_dict.

(** ** Observing a document *)

(** The value stored under a chain of keys, if every level on the way is
    a mapping that holds the next key. *)
Fixpoint lookup_path (v : json) (path : list pystr) : option json :=
  match path with
  | [] => Some v
  | k :: rest =>
      match v with
      | JDict m => v' ← m !! k; lookup_path v' rest
      | _ => None
      end
  end.

(** A chain of mappings that hold one key each, around [leaf]: what a
    level that did not exist looks like once the navigation has created
    it empty and gone on through [path]. *)
Fixpoint created (path : list pystr) (leaf : json) : json :=
  match path with
  | [] => leaf
  | k :: rest => JDict {[ k := created rest leaf ]}
  end.

(** The navigation along [path] meets mappings only: [v] is a mapping, and
    so is every value that exists along [path]. *)
Fixpoint navigable (v : json) (path : list pystr) : bool :=
  match v with
  | JDict m =>
      match path with
      | [] => true
      | k :: rest =>
          match m !! k with
          | Some v' => navigable v' rest
          | None => true
          end
      end
  | _ => false
  end.

(** The document of the examples. *)
Definition example_db : document :=
  {[ u "users" := JDict {[ u "user1" := JDict {[ u "age" := JStr (u "30") ]} ]} ]}.

(** ** [KeyNotFoundError]: the text of the exception *)

(** The f-string of [__init__], [__str__] and [__repr__], for a key that
    is a [str]. *)
Definition KeyNotFoundError_message (key : pystr) : pystr :=
  u "Key not found in DB records [" ++ key ++ u "]".

(** The exception object: [self.key] and the [args] that [__init__] hands
    to [Exception.__init__]. *)
Record KeyNotFoundErrorObject := mkKeyNotFoundError {
  knf_key : pystr;
  knf_args : list pystr
}.

Definition KeyNotFoundError_init (key : pystr) : KeyNotFoundErrorObject :=
  {| knf_key := key; knf_args := [KeyNotFoundError_message key] |}.

Definition KeyNotFoundError_str (self : KeyNotFoundErrorObject) : pystr :=
  KeyNotFoundError_message (knf_key self).

Definition KeyNotFoundError_repr (self : KeyNotFoundErrorObject) : pystr :=
  KeyNotFoundError_message (knf_key self).

(** [__reduce__]: the arguments to call the class with again. *)
Definition KeyNotFoundError_reduce (self : KeyNotFoundErrorObject) : pystr :=
  knf_key self.

(** ** Connections: the class [LocalDatabase] and its instance

    The class attribute [__instance], the attributes of the objects, the
    files and the lines printed make up the [world]. What the code reads
    from outside is an argument: [now] is the instant that
    [datetime.datetime.now()] returns, [fresh] the [id] of the object that
    [object.__new__] allocates. A path names a directory or a regular
    file, which holds a document or is [Damaged]; what [json.load] makes
    of a damaged file is [Unknown]. Access rights are not modelled. [__del__] runs
    when the collector decides and is left out, as are [__str__] and
    [__repr__]. *)

Module Lifecycle.

Abbreviation time := N.

Inductive fs_entry : Type :=
  | Directory
  | RegularFile (content : file_state).

Abbreviation filesystem := (gmap pystr fs_entry).

Inductive os_error : Type :=
  | FileNotFoundError (message : pystr)  (* raised by [__new__] *)
  | NoSuchFile (filename : pystr)        (* the [FileNotFoundError] of [open] *)
  | IsADirectoryError (filename : pystr).

Inductive outcome (A : Type) : Type :=
  | Returned (a : A)
  | Raised (e : exn)
  | OsRaised (e : os_error)
  | Unknown.
Arguments Returned {A} a.
Arguments Raised {A} e.
Arguments OsRaised {A} e.
Arguments Unknown {A}.

Definition of_result {A : Type} (r : result A) : outcome A :=
  match r with
  | Ok a => Returned a
  | Raise e => Raised e
  end.

(** The attributes that [__init__] gives an object. *)
Record attrs := mkAttrs {
  path : pystr;
  last_accessed : option time;
  last_modified : option time;
  created_at : time
}.

Record world := mkWorld {
  instance : option N;      (* [LocalDatabase.__instance], an object id *)
  heap : gmap N attrs;      (* the attributes of the objects *)
  fs : filesystem;
  stdout : list pystr
}.

Definition print (line : pystr) (w : world) : world :=
  {| instance := instance w; heap := heap w; fs := fs w;
     stdout := stdout w ++ [line] |}.

Definition set_instance (o : option N) (w : world) : world :=
  {| instance := o; heap := heap w; fs := fs w; stdout := stdout w |}.

Definition set_heap (h : gmap N attrs) (w : world) : world :=
  {| instance := instance w; heap := h; fs := fs w; stdout := stdout w |}.

Definition set_fs (f : filesystem) (w : world) : world :=
  {| instance := instance w; heap := heap w; fs := f; stdout := stdout w |}.

(** [os.path.exists], [os.path.isfile], [str.endswith] *)
Definition path_exists (f : filesystem) (p : pystr) : bool :=
  bool_decide (is_Some (f !! p)).

Definition path_isfile (f : filesystem) (p : pystr) : bool :=
  match f !! p with
  | Some (RegularFile _) => true
  | _ => false
  end.

Definition endswith (s suffix : pystr) : bool :=
  bool_decide (suffix `suffix_of` s).

(** [str(id(obj))] inside an f-string *)
Definition format_id (o : N) : pystr := u (pretty o).

(** [LocalDatabase.__new__(cls, path)] *)
Definition new (w : world) (fresh : N) (path : pystr) : world * outcome N :=
  match instance w with
  | None =>
      if negb (path_exists (fs w) path) || negb (path_isfile (fs w) path)
         || negb (endswith path (u ".json"))
      then
        (w, OsRaised (FileNotFoundError
               (u "Could not find the database file at " ++ path
                ++ u " [The file must be a JSON file]")))
      else
        let w := set_instance (Some fresh) w in
        let w := print (u "A new database connection has been created successfully! [ID: "
                        ++ format_id fresh ++ u "]") w in
        (w, Returned fresh)
  | Some o =>
      let w := print (u "A database connection has already been made. Reusing the same connection. [ID: "
                      ++ format_id o ++ u "]") w in
      (w, Returned o)
  end.

(** [LocalDatabase.__init__(self, path)], with [Database.__init__] *)
Definition init (w : world) (self : N) (now : time) (path : pystr) : world :=
  let w := print (u "Connected to the database!") w in
  set_heap (<[self := {| path := path; last_accessed := None;
                         last_modified := None; created_at := now |}]> (heap w)) w.

(** The call [LocalDatabase(path)]: [__new__], then [__init__] on the
    object it returned. *)
Definition LocalDatabase (w : world) (fresh : N) (now : time) (path : pystr)
  : world * outcome N :=
  match new w fresh path with
  | (w, Returned self) => (init w self now path, Returned self)
  | (w, Raised e) => (w, Raised e)
  | (w, OsRaised e) => (w, OsRaised e)
  | (w, Unknown) => (w, Unknown)
  end.

(** [open(path, mode)] for the modes ['rt'] and ['r+t'], followed by
    [json.load] *)
Definition open (f : filesystem) (p : pystr) : outcome document :=
  match f !! p with
  | None => OsRaised (NoSuchFile p)
  | Some Directory => OsRaised (IsADirectoryError p)
  | Some (RegularFile (Holds content)) => Returned content
  | Some (RegularFile Damaged) => Unknown
  end.

Definition stamp_accessed (now : time) (a : attrs) : attrs :=
  {| path := path a; last_accessed := Some now;
     last_modified := last_modified a; created_at := created_at a |}.

Definition stamp_modified (now : time) (a : attrs) : attrs :=
  {| path := path a; last_accessed := last_accessed a;
     last_modified := Some now; created_at := created_at a |}.

(** [self.get_data(key)] *)
Definition method_get_data (w : world) (self : N) (now : time) (key : pystr)
  : world * outcome json :=
  match heap w !! self with
  | None => (w, Raised AttributeError)
  | Some a =>
      match open (fs w) (path a) with
      | Returned file =>
          let w := set_heap (<[self := stamp_accessed now a]> (heap w)) w in
          (w, of_result (get_data file key))
      | Raised e => (w, Raised e)
      | OsRaised e => (w, OsRaised e)
      | Unknown => (w, Unknown)
      end
  end.

(** What the [with] block of a mutation leaves: the file in the state
    the engine left it in (the document persisted, the document it held
    when the body raised before the persist step, [Damaged] when the
    persist step raised), and the value returned or the exception. *)
Definition commit (w : world) (p : pystr) (r : file_state * result bool)
  : world * outcome bool :=
  (set_fs (<[p := RegularFile r.1]> (fs w)) w, of_result r.2).

(** [self.set_data(key, value)] *)
Definition method_set_data (w : world) (self : N) (now : time) (key : pystr)
    (value : json) : world * outcome bool :=
  match heap w !! self with
  | None => (w, Raised AttributeError)
  | Some a =>
      match open (fs w) (path a) with
      | Returned file =>
          let w := set_heap (<[self := stamp_modified now a]> (heap w)) w in
          commit w (path a) (set_data file key value)
      | Raised e => (w, Raised e)
      | OsRaised e => (w, OsRaised e)
      | Unknown => (w, Unknown)
      end
  end.

(** [self.delete_data(key)] *)
Definition method_delete_data (w : world) (self : N) (now : time) (key : pystr)
  : world * outcome bool :=
  match heap w !! self with
  | None => (w, Raised AttributeError)
  | Some a =>
      match open (fs w) (path a) with
      | Returned file =>
          let w := set_heap (<[self := stamp_modified now a]> (heap w)) w in
          commit w (path a) (delete_data file key)
      | Raised e => (w, Raised e)
      | OsRaised e => (w, OsRaised e)
      | Unknown => (w, Unknown)
      end
  end.

End Lifecycle.

(** * Properties *)

(** ** Running the example of the documentation *)

Example read_example :
  get_data example_db (u "users/user1/age") = Ok (JStr (u "30")).
Proof. vm_compute. reflexivity. Qed.

Example write_example :
  set_data example_db (u "users/user1/age") (JStr (u "31"))
  = (Holds {[ u "users" := JDict {[ u "user1" := JDict {[ u "age" := JStr (u "31") ]} ]} ]},
     Ok true).
Proof. vm_compute. reflexivity. Qed.

Example delete_example :
  delete_data example_db (u "users/user1/age")
  = (Holds {[ u "users" := JDict {[ u "user1" := JDict ∅ ]} ]}, Ok true).
Proof. vm_compute. reflexivity. Qed.

Example write_missing_example :
  set_data example_db (u "missing/x") (JStr (u "v"))
  = (Holds example_db, Raise (KeyNotFoundError (u "missing"))).
Proof. vm_compute. reflexivity. Qed.

(** ** The key parser *)

Module PyStrFacts.
Import PyStr.

Lemma lstrip_decompose s :
  ∃ lead, s = lead ++ lstrip s ∧ all_space lead.
Proof.
  induction s as [|c s [lead [Heq Hws]]]; simpl.
  - exists []. split; [done | constructor].
  - destruct (isspace c) eqn:Hc.
    + exists (c :: lead). split; [by rewrite /= -Heq | by constructor].
    + exists []. split; [done | constructor].
Qed.

Lemma lstrip_head s c : head (lstrip s) = Some c → isspace c = false.
Proof.
  induction s as [|c' s IH]; simpl; [done |].
  destruct (isspace c') eqn:Hc; [done |].
  simpl. by intros [= <-].
Qed.

Lemma rstrip_decompose s :
  ∃ trail, s = rstrip s ++ trail ∧ all_space trail.
Proof.
  destruct (lstrip_decompose (reverse s)) as [lead [Heq Hws]].
  exists (reverse lead). split.
  - rewrite /rstrip -reverse_app -Heq. by rewrite reverse_involutive.
  - by apply Forall_reverse.
Qed.

Lemma rstrip_last s c : last (rstrip s) = Some c → isspace c = false.
Proof.
  rewrite /rstrip last_reverse. apply lstrip_head.
Qed.

Lemma strip_decompose s :
  ∃ lead trail, s = lead ++ strip s ++ trail ∧ all_space lead ∧ all_space trail.
Proof.
  destruct (lstrip_decompose s) as [lead [Hl Hlead]].
  destruct (rstrip_decompose (lstrip s)) as [trail [Hr Htrail]].
  exists lead, trail. rewrite /strip -Hr. done.
Qed.

Lemma strip_head s c : head (strip s) = Some c → isspace c = false.
Proof.
  intros Hh. apply (lstrip_head s).
  destruct (rstrip_decompose (lstrip s)) as [trail [Hr _]].
  rewrite Hr. unfold strip in Hh.
  destruct (rstrip (lstrip s)); [done | exact Hh].
Qed.

Lemma strip_last s c : last (strip s) = Some c → isspace c = false.
Proof. apply rstrip_last. Qed.

Lemma split_not_nil sep s : split sep s ≠ [].
Proof.
  destruct s as [|c s]; simpl; [done |].
  destruct (c =? sep); [done |]. by destruct (split sep s).
Qed.

Lemma join_cons sep seg segs :
  segs ≠ [] → join sep (seg :: segs) = seg ++ sep :: join sep segs.
Proof. by destruct segs. Qed.

Lemma join_split sep s : join sep (split sep s) = s.
Proof.
  induction s as [|c s IH]; simpl; [done |].
  destruct (N.eqb_spec c sep) as [-> | Hne].
  - rewrite join_cons; [apply split_not_nil |]. by rewrite IH.
  - pose proof (split_not_nil sep s) as Hnn.
    destruct (split sep s) as [|seg [|seg' segs]]; [congruence | |].
    + simpl in *. by rewrite IH.
    + rewrite join_cons; [done |]. rewrite join_cons in IH; [done |].
      by rewrite /= IH.
Qed.

Lemma split_segments sep s : Forall (λ seg, sep ∉ seg) (split sep s).
Proof.
  induction s as [|c s IH]; simpl.
  - constructor; [apply not_elem_of_nil | constructor].
  - destruct (N.eqb_spec c sep) as [-> | Hne].
    + constructor; [apply not_elem_of_nil | done].
    + destruct (split sep s) as [|seg segs].
      * constructor; [| constructor].
        rewrite elem_of_cons. intros [-> | H%not_elem_of_nil]; done.
      * inversion IH as [|? ? Hseg Hsegs]; subst.
        constructor; [| done].
        rewrite elem_of_cons. intros [-> | H]; done.
Qed.

Lemma split_no_sep sep s : sep ∉ s → split sep s = [s].
Proof.
  induction s as [|c s IH]; simpl; [done |].
  rewrite not_elem_of_cons. intros [Hne Hs].
  destruct (N.eqb_spec c sep) as [-> | _]; [done |].
  by rewrite IH.
Qed.

Lemma split_head_nil sep s :
  head (split sep s) = Some [] ↔ s = [] ∨ head s = Some sep.
Proof.
  destruct s as [|c s]; simpl; [by split; [left |] |].
  destruct (N.eqb_spec c sep) as [-> | Hne]; [by split; [right |] |].
  split.
  - by destruct (split sep s).
  - intros [? | ?]; [done | congruence].
Qed.

(** Trimming never brings a separator into the key. *)
Lemma strip_no_sep sep s : sep ∉ s → sep ∉ strip s.
Proof.
  destruct (strip_decompose s) as [lead [trail [Heq _]]].
  intros Hs Hin. apply Hs. rewrite Heq. set_solver.
Qed.

End PyStrFacts.

Lemma deserialize_key_total key :
  ∃ K S, deserialize_key key = Ok (mkKeys K S)
         ∧ PyStr.split SEP (PyStr.strip key) = K :: S.
Proof.
  unfold deserialize_key.
  pose proof (PyStrFacts.split_not_nil SEP (PyStr.strip key)) as Hnn.
  destruct (PyStr.split SEP (PyStr.strip key)) as [|K S]; [done |].
  by exists K, S.
Qed.

Lemma deserialize_key_inv key K S :
  deserialize_key key = Ok (mkKeys K S) →
  PyStr.split SEP (PyStr.strip key) = K :: S.
Proof.
  destruct (deserialize_key_total key) as [K' [S' [Hd Hs]]].
  rewrite Hd. by intros [= <- <-].
Qed.

(** C8. Parsing trims the surrounding whitespace of the key, then splits
    the trimmed key at every ['/']: the key is [lead ++ trimmed ++ trail]
    with [lead] and [trail] made of whitespace and [trimmed] neither
    starting nor ending with whitespace; the root key followed by the
    sub-keys are the segments of [trimmed] in their original order
    (joining them with ['/'] gives [trimmed] back and no segment holds a
    ['/']); a key without ['/'] has no sub-keys and its root key is the
    trimmed key. *)
Theorem deserialize_key_trims_then_splits (key : pystr) :
  ∃ lead trimmed trail K S,
    deserialize_key key = Ok (mkKeys K S)
    ∧ key = lead ++ trimmed ++ trail
    ∧ trimmed = PyStr.strip key
    ∧ PyStr.all_space lead ∧ PyStr.all_space trail
    ∧ (∀ c, head trimmed = Some c → PyStr.isspace c = false)
    ∧ (∀ c, last trimmed = Some c → PyStr.isspace c = false)
    ∧ K :: S = PyStr.split SEP trimmed
    ∧ PyStr.join SEP (K :: S) = trimmed
    ∧ Forall (λ seg, SEP ∉ seg) (K :: S)
    ∧ (SEP ∉ key → K = trimmed ∧ S = []).
Proof.
  destruct (PyStrFacts.strip_decompose key) as [lead [trail [Heq [Hl Ht]]]].
  destruct (deserialize_key_total key) as [K [S [Hd Hs]]].
  exists lead, (PyStr.strip key), trail, K, S.
  split_and!; try done.
  - apply PyStrFacts.strip_head.
  - apply PyStrFacts.strip_last.
  - rewrite -Hs. apply PyStrFacts.join_split.
  - rewrite -Hs. apply PyStrFacts.split_segments.
  - intros Hsep%(PyStrFacts.strip_no_sep SEP)%PyStrFacts.split_no_sep.
    rewrite Hs in Hsep. by injection Hsep.
Qed.

(** C4 (as stated) fails: the parser accepts the empty key, a blank key
    and a key that starts with ['/'], and answers the empty root key. *)
Lemma deserialize_key_empty_root :
  deserialize_key (u "") = Ok (mkKeys [] [])
  ∧ deserialize_key (u "  ") = Ok (mkKeys [] [])
  ∧ deserialize_key (u " /a") = Ok (mkKeys [] [u "a"]).
Proof. by vm_compute. Qed.

(** ** The navigation loop and [descend] *)

Section Descend.
Variable final : json → pystr → result json.

Lemma descend_cons k k' rest m :
  descend final (JDict m) (k :: k' :: rest)
  = (r ← descend final (default (JDict ∅) (m !! k)) (k' :: rest);
     Ok (JDict (<[k := r]> m))).
Proof. done. Qed.

Lemma descend_cons_inv cur k k' rest r :
  descend final cur (k :: k' :: rest) = Ok r →
  ∃ m r', cur = JDict m
          ∧ descend final (default (JDict ∅) (m !! k)) (k' :: rest) = Ok r'
          ∧ r = JDict (<[k := r']> m).
Proof.
  destruct cur as [| | | | | |m]; try done.
  rewrite descend_cons.
  destruct (descend final _ (k' :: rest)) as [r'|e] eqn:Hr'; [| done].
  intros [= <-]. by exists m, r'.
Qed.

Lemma loop_is_descend rest : ∀ k cur ctx,
  ('(c, ctx') ← for_each setdefault_step (cur, ctx) (removelast (k :: rest));
   c' ← final c (List.last (k :: rest) []);
   Ok (plug ctx' c'))
  = (r ← descend final cur (k :: rest); Ok (plug ctx r)).
Proof.
  induction rest as [|k' rest IH]; intros k cur ctx; [done |].
  change (removelast (k :: k' :: rest)) with (k :: removelast (k' :: rest)).
  change (List.last (k :: k' :: rest) []) with (List.last (k' :: rest) []).
  destruct cur as [| | | | | |m]; try done.
  rewrite descend_cons. cbn [for_each].
  change (setdefault_step (JDict m, ctx) k)
    with (Ok (A := cursor) (default (JDict ∅) (m !! k), Frame m k :: ctx)).
  cbn [mbind result_bind]. rewrite IH.
  by destruct (descend _ _ (k' :: rest)).
Qed.

Hypothesis final_dict :
  ∀ c k c', final c k = Ok c' → isinstance_dict c' = true.

(** A successful descent through at least one key leaves a mapping. *)
Lemma descend_is_dict path : ∀ cur r,
  path ≠ [] → descend final cur path = Ok r → isinstance_dict r = true.
Proof.
  intros cur r Hne. destruct path as [|k [|k' rest]]; [done | apply final_dict |].
  intros (m & r' & -> & _ & ->)%descend_cons_inv. done.
Qed.

(** Every level above the last key is a mapping afterwards. *)
Lemma descend_level P : ∀ rest cur r,
  rest ≠ [] → descend final cur (P ++ rest) = Ok r →
  ∃ m, lookup_path r P = Some (JDict m).
Proof.
  induction P as [|k P IH]; intros rest cur r Hne Hd.
  - apply descend_is_dict in Hd; [| done].
    destruct r; try done. by eexists.
  - destruct (P ++ rest) as [|k' tl] eqn:Htl; [by destruct P, rest |].
    simpl in Hd. rewrite Htl in Hd.
    apply descend_cons_inv in Hd as (m & r' & -> & Hr' & ->).
    rewrite -Htl in Hr'. apply IH in Hr' as [m' Hm']; [| done].
    exists m'. by rewrite /= lookup_insert_eq.
Qed.

Lemma lookup_path_empty P : P ≠ [] → lookup_path (JDict ∅) P = None.
Proof. destruct P; [done |]. by rewrite /= lookup_empty. Qed.

(** A level that did not exist holds, afterwards, what the descent makes
    of an empty mapping. *)
Lemma descend_fresh P : ∀ rest cur r,
  P ≠ [] → rest ≠ [] → lookup_path cur P = None →
  descend final cur (P ++ rest) = Ok r →
  ∃ r', descend final (JDict ∅) rest = Ok r' ∧ lookup_path r P = Some r'.
Proof.
  induction P as [|k P IH]; intros rest cur r HP Hne Hmiss Hd; [done |].
  destruct (P ++ rest) as [|k' tl] eqn:Htl; [by destruct P, rest |].
  simpl in Hd. rewrite Htl in Hd.
  apply descend_cons_inv in Hd as (m & r1 & -> & Hr1 & ->).
  rewrite -Htl in Hr1. rewrite /= lookup_insert_eq /=.
  destruct P as [|k2 P].
  - simpl in Hmiss. destruct (m !! k) eqn:Hk; [done |].
    exists r1. by rewrite /= in Hr1 |- *.
  - apply (IH rest (default (JDict ∅) (m !! k)) r1); [done | done | | done].
    cbn [lookup_path] in Hmiss.
    destruct (m !! k) as [c|] eqn:Hk; [exact Hmiss |].
    by apply lookup_path_empty.
Qed.

End Descend.

Lemma setitem_dict value c k c' :
  setitem c k value = Ok c' → isinstance_dict c' = true.
Proof. destruct c; try done. by intros [= <-]. Qed.

Lemma pop_method_dict c k c' :
  pop_method c k = Ok c' → isinstance_dict c' = true.
Proof. destruct c; try done. by intros [= <-]. Qed.

Lemma dict_not_none v : isinstance_dict v = true → is_none v = false.
Proof. by destruct v. Qed.

(** *** Writing *)

Lemma descend_set_empty value rest :
  rest ≠ [] →
  descend (λ c k, setitem c k value) (JDict ∅) rest = Ok (created rest value).
Proof.
  induction rest as [|k [|k' rest] IH]; intros Hne; [done | |].
  - by rewrite /= insert_empty.
  - rewrite descend_cons lookup_empty /= in IH |- *.
    rewrite IH; [done |]. by rewrite /= insert_empty.
Qed.

(** Reading back along the path that was written. *)
Lemma descend_set_get_loop value path : ∀ cur r,
  path ≠ [] →
  descend (λ c k, setitem c k value) cur path = Ok r →
  get_loop r path = Ok value.
Proof.
  induction path as [|k [|k' rest] IH]; intros cur r Hne Hd; [done | |].
  - destruct cur as [| | | | | |m]; try done.
    injection Hd as <-. rewrite /= lookup_insert_eq /=. by destruct value.
  - apply descend_cons_inv in Hd as (m & r' & -> & Hr' & ->).
    pose proof Hr' as Hdict.
    apply descend_is_dict in Hdict; [| apply setitem_dict | done].
    cbn [get_loop get_method mbind result_bind].
    rewrite lookup_insert_eq. cbn [default].
    rewrite (dict_not_none _ Hdict). by apply (IH _ _ ltac:(done) Hr').
Qed.

(** *** Deleting *)

Lemma descend_pop_empty rest :
  rest ≠ [] →
  descend pop_method (JDict ∅) rest = Ok (created (removelast rest) (JDict ∅)).
Proof.
  induction rest as [|k [|k' rest] IH]; intros Hne; [done | |].
  - by rewrite /= delete_empty.
  - rewrite descend_cons lookup_empty.
    change (default (JDict ∅) None) with (JDict ∅).
    rewrite IH; [done |].
    change (removelast (k :: k' :: rest)) with (k :: removelast (k' :: rest)).
    by rewrite /= insert_empty.
Qed.

Lemma descend_pop_removed path : ∀ cur r,
  path ≠ [] → descend pop_method cur path = Ok r → lookup_path r path = None.
Proof.
  induction path as [|k [|k' rest] IH]; intros cur r Hne Hd; [done | |].
  - destruct cur as [| | | | | |m]; try done.
    injection Hd as <-. by rewrite /= lookup_delete_eq.
  - apply descend_cons_inv in Hd as (m & r' & -> & Hr' & ->).
    cbn [lookup_path]. rewrite lookup_insert_eq /=. by apply (IH _ _ ltac:(done) Hr').
Qed.

(** Nothing to remove and nothing to create: the value is left as it is. *)
Lemma descend_pop_noop path : ∀ cur r,
  path ≠ [] → descend pop_method cur path = Ok r →
  lookup_path cur path = None → is_Some (lookup_path cur (removelast path)) →
  r = cur.
Proof.
  induction path as [|k [|k' rest] IH]; intros cur r Hne Hd Hmiss Hlev; [done | |].
  - destruct cur as [| | | | | |m]; try done.
    injection Hd as <-. f_equal. apply delete_id.
    simpl in Hmiss. by destruct (m !! k).
  - apply descend_cons_inv in Hd as (m & r' & -> & Hr' & ->).
    change (removelast (k :: k' :: rest)) with (k :: removelast (k' :: rest)) in Hlev.
    cbn [lookup_path] in Hmiss, Hlev.
    destruct (m !! k) as [c|] eqn:Hk; [| by destruct Hlev].
    cbn [default mbind option_bind] in *.
    apply IH in Hr'; [| done | done | done]. subst r'.
    f_equal. by apply insert_id.
Qed.

Lemma descend_pop_idemp path : ∀ cur r,
  path ≠ [] → descend pop_method cur path = Ok r →
  descend pop_method r path = Ok r.
Proof.
  induction path as [|k [|k' rest] IH]; intros cur r Hne Hd; [done | |].
  - destruct cur as [| | | | | |m]; try done.
    injection Hd as <-. by rewrite /= delete_delete_eq.
  - apply descend_cons_inv in Hd as (m & r' & -> & Hr' & ->).
    rewrite descend_cons lookup_insert_eq. cbn [default].
    rewrite (IH _ _ ltac:(done) Hr').
    by rewrite /= insert_insert_eq.
Qed.

(** *** When the navigation goes through *)

Lemma navigable_empty path : navigable (JDict ∅) path = true.
Proof. destruct path; [done |]. by rewrite /= lookup_empty. Qed.

Lemma navigable_child m k path :
  navigable (JDict m) (k :: path) = navigable (default (JDict ∅) (m !! k)) path.
Proof.
  cbn [navigable]. destruct (m !! k); [done |]. by rewrite /= navigable_empty.
Qed.

Lemma walk_navigable path : ∀ cur ctx,
  navigable cur path = true →
  ∃ m ctx', for_each setdefault_step (cur, ctx) path = Ok (JDict m, ctx').
Proof.
  induction path as [|k path IH]; intros cur ctx Hnav.
  - destruct cur as [| | | | | |m]; try done. by exists m, ctx.
  - destruct cur as [| | | | | |m]; try done.
    rewrite navigable_child in Hnav.
    apply (IH _ (Frame m k :: ctx)) in Hnav as (m' & ctx' & Hw).
    by exists m', ctx'.
Qed.

Lemma walk_not_navigable path : ∀ cur ctx,
  navigable cur path = false →
  for_each setdefault_step (cur, ctx) path = Raise AttributeError
  ∨ ∃ c ctx', for_each setdefault_step (cur, ctx) path = Ok (c, ctx')
              ∧ isinstance_dict c = false.
Proof.
  induction path as [|k path IH]; intros cur ctx Hnav.
  - right. exists cur, ctx. split; [done |]. by destruct cur.
  - destruct cur as [| | | | | |m]; try by left.
    rewrite navigable_child in Hnav.
    by apply (IH _ (Frame m k :: ctx)) in Hnav.
Qed.

(** ** [__find_nested_data] and the operations, on a parsed key *)

Lemma has_subkeys_cons s rest : has_subkeys (s :: rest) = true.
Proof. done. Qed.

Lemma find_nested_data_cons db key s rest operation value :
  find_nested_data db key (s :: rest) operation value
  = (cur ← getitem db key;
     r ← descend (final_of operation value) cur (s :: rest);
     Ok (<[key := r]> db, JNull)).
Proof.
  unfold find_nested_data. rewrite has_subkeys_cons.
  destruct (getitem db key) as [cur|e]; [| done]. cbn [mbind result_bind].
  pose proof (loop_is_descend (final_of operation value) rest s cur []) as Hloop.
  unfold final_of in Hloop.
  destruct (for_each setdefault_step (cur, []) (removelast (s :: rest)))
    as [[c ctx]|e]; cbn [mbind result_bind] in *.
  - destruct (if bool_decide (operation = u "delete") then _ else _) as [c'|e];
      cbn [mbind result_bind] in *.
    + destruct (descend _ cur (s :: rest)) as [r|e]; [| done].
      cbn [mbind result_bind plug foldl] in *. by simplify_eq.
    + destruct (descend _ cur (s :: rest));
        cbn [mbind result_bind] in *; by simplify_eq.
  - destruct (descend _ cur (s :: rest));
      cbn [mbind result_bind] in *; by simplify_eq.
Qed.

Lemma final_of_set value : final_of (u "set") value = λ c k, setitem c k value.
Proof. done. Qed.

Lemma final_of_delete value : final_of (u "delete") value = pop_method.
Proof. done. Qed.

(** The three operations on a parsed key. *)

Lemma get_data_parsed file key K S :
  deserialize_key key = Ok (mkKeys K S) →
  get_data file key
  = (let data := default JNull (file !! K) in
     if has_subkeys S && isinstance_dict data then get_loop data S else Ok data).
Proof. intros Hd. unfold get_data. by rewrite Hd. Qed.

Lemma set_data_parsed file key value K S root :
  deserialize_key key = Ok (mkKeys K S) →
  file !! K = Some root →
  set_data file key value
  = match S with
    | [] => update_database (<[K := value]> file)
    | _ => match descend (λ c k, setitem c k value) root S with
           | Ok r => update_database (<[K := r]> file)
           | Raise e => (Holds file, Raise e)
           end
    end.
Proof.
  intros Hd HK. unfold set_data. rewrite Hd. cbn [mbind result_bind main_key subkeys].
  rewrite HK bool_decide_eq_true_2; [done |]. cbn [negb].
  destruct S as [|s rest]; [done |].
  rewrite has_subkeys_cons find_nested_data_cons final_of_set /getitem HK.
  cbn [mbind result_bind].
  by destruct (descend _ root (s :: rest)).
Qed.

Lemma set_data_absent file key value K S :
  deserialize_key key = Ok (mkKeys K S) →
  file !! K = None →
  set_data file key value = (Holds file, Raise (KeyNotFoundError K)).
Proof.
  intros Hd HK. unfold set_data. rewrite Hd. cbn [mbind result_bind main_key subkeys].
  rewrite HK bool_decide_eq_false_2; [by intros [? ?] | done].
Qed.

Lemma delete_data_parsed file key K S :
  deserialize_key key = Ok (mkKeys K S) →
  delete_data file key
  = match S with
    | [] => update_database (delete K file)
    | _ => match file !! K with
           | None => (Holds file, Raise (KeyError K))
           | Some root =>
               match descend pop_method root S with
               | Ok r => update_database (<[K := r]> file)
               | Raise e => (Holds file, Raise e)
               end
           end
    end.
Proof.
  intros Hd. unfold delete_data. rewrite Hd. cbn [mbind result_bind main_key subkeys].
  destruct S as [|s rest]; [done |].
  rewrite has_subkeys_cons find_nested_data_cons final_of_delete /getitem.
  destruct (file !! K) as [root|]; [| done]. cbn [mbind result_bind].
  by destruct (descend _ root (s :: rest)).
Qed.

Lemma has_subkeys_true S : S ≠ [] → has_subkeys S = true.
Proof. by destruct S. Qed.

(** The two mutations, from the cursor that the loop ends on. *)

Lemma find_nested_data_at db key S operation value root m ctx :
  S ≠ [] → db !! key = Some root →
  for_each setdefault_step (root, []) (removelast S) = Ok (JDict m, ctx) →
  find_nested_data db key S operation value
  = (c ← final_of operation value (JDict m) (List.last S []);
     Ok (<[key := plug ctx c]> db, JNull)).
Proof.
  intros HS Hroot Hloop.
  by rewrite /find_nested_data has_subkeys_true // /getitem Hroot /= Hloop.
Qed.

Lemma set_data_at file key value K S root m ctx :
  deserialize_key key = Ok (mkKeys K S) → file !! K = Some root → S ≠ [] →
  for_each setdefault_step (root, []) (removelast S) = Ok (JDict m, ctx) →
  set_data file key value
  = update_database (<[K := plug ctx (JDict (<[List.last S [] := value]> m))]> file).
Proof.
  intros Hd HK HS Hloop. unfold set_data.
  rewrite Hd. cbn [mbind result_bind main_key subkeys].
  rewrite HK bool_decide_eq_true_2; [done |]. cbn [negb].
  by rewrite has_subkeys_true // (find_nested_data_at _ _ _ _ _ root m ctx).
Qed.

Lemma delete_data_at file key K S root m ctx :
  deserialize_key key = Ok (mkKeys K S) → file !! K = Some root → S ≠ [] →
  for_each setdefault_step (root, []) (removelast S) = Ok (JDict m, ctx) →
  delete_data file key
  = update_database (<[K := plug ctx (JDict (delete (List.last S []) m))]> file).
Proof.
  intros Hd HK HS Hloop. unfold delete_data.
  rewrite Hd. cbn [mbind result_bind main_key subkeys].
  by rewrite has_subkeys_true // (find_nested_data_at _ _ _ _ _ root m ctx).
Qed.

Lemma delete_data_stuck file key K S root :
  deserialize_key key = Ok (mkKeys K S) → file !! K = Some root → S ≠ [] →
  navigable root (removelast S) = false →
  ∃ e, delete_data file key = (Holds file, Raise e)
       ∧ (e = AttributeError ∨ e = TypeError).
Proof.
  intros Hd HK HS Hnav. unfold delete_data.
  rewrite Hd. cbn [mbind result_bind main_key subkeys].
  rewrite has_subkeys_true // /find_nested_data has_subkeys_true //.
  rewrite /getitem HK. cbn [mbind result_bind].
  destruct (walk_not_navigable _ root [] Hnav) as [-> | (c & ctx & -> & Hc)].
  - exists AttributeError. split; [done | by left].
  - cbn [mbind result_bind]. rewrite bool_decide_eq_true_2; [done |].
    destruct c; try done;
      first [ by exists AttributeError; split; [| left]
            | by exists TypeError; split; [| right] ].
Qed.

(** *** Reading along a path *)

(** The loop of [get_data] follows the path as long as it finds values
    other than [None]. *)
Lemma get_loop_through P : ∀ root v tail,
  lookup_path root P = Some v → is_none v = false →
  get_loop root (P ++ tail) = get_loop v tail.
Proof.
  induction P as [|k P IH]; intros root v tail Hlook Hv.
  - by injection Hlook as ->.
  - destruct root as [| | | | | |m]; try done.
    cbn [lookup_path] in Hlook.
    destruct (m !! k) as [v1|] eqn:Hk; [| done].
    cbn [mbind option_bind] in Hlook.
    rewrite /= Hk /=.
    assert (is_none v1 = false) as ->.
    { destruct P; [by injection Hlook as -> | by destruct v1]. }
    by apply IH.
Qed.

(** What holds of the traversal: a sub-key that is absent from the
    mapping reached so far ends it with [None]. *)
Lemma get_data_absent_subkey (file : document) key K S P s rest root m :
  deserialize_key key = Ok (mkKeys K S) →
  file !! K = Some root → S = P ++ s :: rest →
  lookup_path root P = Some (JDict m) → m !! s = None →
  get_data file key = Ok JNull.
Proof.
  intros Hd HK -> Hlook Hs.
  rewrite (get_data_parsed _ _ K (P ++ s :: rest)) // HK.
  assert (isinstance_dict root = true) as Hroot.
  { destruct P; [by injection Hlook as -> | by destruct root]. }
  rewrite has_subkeys_true; [by destruct P |].
  cbn [default]. rewrite Hroot.
  by rewrite (get_loop_through P root (JDict m)) //= Hs.
Qed.

(** What does not: a value that is neither a mapping nor [None], reached
    with sub-keys left, makes [data.get] raise. *)
Lemma get_data_scalar_subkey (file : document) key K S P s rest root v :
  deserialize_key key = Ok (mkKeys K S) →
  file !! K = Some root → isinstance_dict root = true →
  S = P ++ s :: rest →
  lookup_path root P = Some v →
  isinstance_dict v = false → is_none v = false →
  get_data file key = Raise AttributeError.
Proof.
  intros Hd HK Hroot -> Hlook Hv Hnn.
  rewrite (get_data_parsed _ _ K (P ++ s :: rest)) // HK.
  rewrite has_subkeys_true; [by destruct P |].
  cbn [default]. rewrite Hroot.
  rewrite (get_loop_through P root v) //. by destruct v.
Qed.

(** *** The persist step *)

Lemma update_database_ok db st b :
  update_database db = (st, Ok b) →
  st = Holds db ∧ b = true ∧ dumpable (JDict db) = true.
Proof.
  unfold update_database. destruct (dumpable (JDict db)); [| done].
  by intros [= <- <-].
Qed.

Lemma update_database_dumpable db :
  dumpable (JDict db) = true → update_database db = (Holds db, Ok true).
Proof. unfold update_database. by intros ->. Qed.


(** ** The claims *)

(** C1. If the root key [K] is in the document and [set_data] succeeds,
    [get_data] on the document just persisted, with the same key, returns
    the value written. Root keys other than [K] keep their values. With
    no sub-keys the value of [K] is replaced by the value written. With
    sub-keys, every level of the path above the last sub-key is a mapping
    afterwards, and a level that did not exist before holds nothing but
    the rest of the path down to the value written: it was created as an
    empty mapping. *)
Theorem set_data_then_get_data (file file' : document) (key : pystr)
    (value : json) (K : pystr) (S : list pystr) (root : json) :
  deserialize_key key = Ok (mkKeys K S) →
  file !! K = Some root →
  set_data file key value = (Holds file', Ok true) →
  get_data file' key = Ok value
  ∧ (∀ K', K' ≠ K → file' !! K' = file !! K')
  ∧ (S = [] → file' = <[K := value]> file)
  ∧ (S ≠ [] →
     ∃ root', file' = <[K := root']> file ∧
       ∀ P rest, S = P ++ rest → rest ≠ [] →
         (∃ m, lookup_path root' P = Some (JDict m))
         ∧ (lookup_path root P = None →
            lookup_path root' P = Some (created rest value))).
Proof.
  intros Hd HK Hset. rewrite (set_data_parsed _ _ _ K S root) // in Hset.
  rewrite (get_data_parsed _ _ K S) //.
  destruct S as [|s tl].
  - apply update_database_ok in Hset as [[= ->] _].
    rewrite lookup_insert_eq /=.
    split_and!; [done | | done | done].
    intros K' HK'. rewrite lookup_insert_ne; [congruence | done].
  - destruct (descend _ root (s :: tl)) as [r|e] eqn:Hr; [| done].
    apply update_database_ok in Hset as [[= ->] _].
    rewrite lookup_insert_eq. cbn [default].
    pose proof Hr as Hdict.
    apply descend_is_dict in Hdict; [| apply setitem_dict | done].
    rewrite has_subkeys_cons Hdict /=. split_and!.
    + by apply (descend_set_get_loop value (s :: tl) root).
    + intros K' HK'. rewrite lookup_insert_ne; [congruence | done].
    + done.
    + intros _. exists r. split; [done |]. intros P rest HS Hrest.
      rewrite HS in Hr. split.
      * by eapply descend_level; [apply setitem_dict | | exact Hr].
      * intros Hmiss.
        assert (P ≠ []) as HP by (by intros ->).
        destruct (descend_fresh _ P rest root r HP Hrest Hmiss Hr)
          as (r' & Hr' & Hlook).
        rewrite descend_set_empty // in Hr'. by injection Hr' as <-.
Qed.

Lemma set_data_then_get_data_witness :
  let key := u "users/user2/age" in
  let file' : document :=
    {[ u "users" := JDict (<[ u "user2" := JDict {[ u "age" := JInt 41 ]} ]>
                             {[ u "user1" := JDict {[ u "age" := JStr (u "30") ]} ]}) ]} in
  set_data example_db key (JInt 41) = (Holds file', Ok true)
  ∧ get_data file' key = Ok (JInt 41).
Proof.
  split; [by vm_compute |].
  eapply (set_data_then_get_data example_db _ (u "users/user2/age") (JInt 41)
            (u "users") [u "user2"; u "age"]); by vm_compute.
Defined.

(** C2. When the root key [K] is not in the document, [set_data] raises
    [KeyNotFoundError] carrying [K], whatever the sub-keys; the file keeps
    the document it held, and [K] is still absent from it. *)
Theorem set_data_absent_root (file : document) (key : pystr) (value : json)
    (K : pystr) (S : list pystr) :
  deserialize_key key = Ok (mkKeys K S) →
  file !! K = None →
  set_data file key value = (Holds file, Raise (KeyNotFoundError K))
  ∧ ∃ file', (set_data file key value).1 = Holds file' ∧ file' !! K = None.
Proof.
  intros Hd HK. rewrite (set_data_absent _ _ _ K S) //.
  split; [done |]. by exists file.
Qed.

Lemma set_data_absent_root_witness :
  set_data example_db (u "missing/x/y") (JStr (u "v"))
  = (Holds example_db, Raise (KeyNotFoundError (u "missing")))
  ∧ ∃ file', (set_data example_db (u "missing/x/y") (JStr (u "v"))).1 = Holds file'
             ∧ file' !! u "missing" = None.
Proof.
  apply (set_data_absent_root example_db (u "missing/x/y") (JStr (u "v"))
           (u "missing") [u "x"; u "y"]); by vm_compute.
Defined.

(** C3 (the code departs from it). [get_data] guards the value of the root
    key with [isinstance(data, dict)] but not the values it meets inside
    the loop: on the document of the examples, the path
    [users/user1/age/x] reaches the string ["30"] with one sub-key left,
    and [data.get] raises [AttributeError] instead of answering [None]. *)
Theorem get_data_scalar_on_path_raises :
  get_data example_db (u "users/user1/age/x") = Raise AttributeError.
Proof. by vm_compute. Qed.

(** C4 (amended). The root key is the first ['/']-separated segment of the
    trimmed key: it is empty exactly when the trimmed key is empty or
    starts with ['/']. The root key followed by the sub-keys are the
    segments of the trimmed key in their original order, and [get_data]
    looks the first sub-key up in the value of the root key. *)
Theorem deserialize_key_root_and_order (key K : pystr) (S : list pystr) :
  deserialize_key key = Ok (mkKeys K S) →
  (K = [] ↔ PyStr.strip key = [] ∨ head (PyStr.strip key) = Some SEP)
  ∧ PyStr.join SEP (K :: S) = PyStr.strip key
  ∧ Forall (λ seg, SEP ∉ seg) (K :: S)
  ∧ (∀ (file : document) m s rest,
       file !! K = Some (JDict m) → S = s :: rest →
       get_data file key
       = (let v := default JNull (m !! s) in
          if is_none v then Ok v else get_loop v rest)).
Proof.
  intros Hd. pose proof (deserialize_key_inv _ _ _ Hd) as Hs. split_and!.
  - rewrite -PyStrFacts.split_head_nil Hs /=. split; [by intros -> | by intros [=]].
  - rewrite -Hs. apply PyStrFacts.join_split.
  - rewrite -Hs. apply PyStrFacts.split_segments.
  - intros file m s rest HK ->.
    by rewrite (get_data_parsed _ _ K (s :: rest)) // HK.
Qed.

Lemma deserialize_key_root_and_order_witness :
  deserialize_key (u " users/user1/age  ")
  = Ok (mkKeys (u "users") [u "user1"; u "age"])
  ∧ PyStr.join SEP [u "users"; u "user1"; u "age"]
    = PyStr.strip (u " users/user1/age  ").
Proof.
  split; [by vm_compute |].
  apply (deserialize_key_root_and_order (u " users/user1/age  ")
           (u "users") [u "user1"; u "age"]).
  by vm_compute.
Defined.

(** C5 (as stated) fails: with the root key present and sub-keys given,
    [delete_data] raises, and persists nothing, when the value of the root
    key or a value on the way is not a mapping. *)
Lemma delete_data_scalar_on_path :
  delete_data {[ u "a" := JStr (u "x") ]} (u "a/b")
  = (Holds {[ u "a" := JStr (u "x") ]}, Raise AttributeError)
  ∧ delete_data example_db (u "users/user1/age/x")
    = (Holds example_db, Raise AttributeError).
Proof. by vm_compute. Qed.

(** C5 (amended). Let the root key [K] be in the document, with value
    [root], and let the sub-keys [S] be non-empty.
    If [root] and every value that exists along [S] without its last key
    are mappings, the loop ends on a mapping [m] (a missing level counting
    as a new empty mapping) and [set_data] assigns the last sub-key in
    that same [m]; [delete_data] removes the last sub-key from [m] and
    hands the document to the persist step, which writes it and returns
    [True] when [json.dump] can write it. In the document handed over,
    every level of [S] above its last key is a mapping, a level that did
    not exist holds only the chain of new mappings below it (the innermost
    one empty), and the path [S] leads to nothing. When the last sub-key
    was not there and no level was missing, that document is the document
    read.
    Otherwise [delete_data] raises [AttributeError] or [TypeError] and the
    file keeps the document it held. *)
Theorem delete_data_nested (file : document) (key K : pystr)
    (S : list pystr) (root : json) :
  deserialize_key key = Ok (mkKeys K S) →
  file !! K = Some root →
  S ≠ [] →
  (navigable root (removelast S) = true →
   ∃ m ctx root',
     for_each setdefault_step (root, []) (removelast S) = Ok (JDict m, ctx)
     ∧ (∀ value,
          set_data file key value
          = update_database
              (<[K := plug ctx (JDict (<[List.last S [] := value]> m))]> file))
     ∧ root' = plug ctx (JDict (delete (List.last S []) m))
     ∧ delete_data file key = update_database (<[K := root']> file)
     ∧ (dumpable (JDict (<[K := root']> file)) = true →
        delete_data file key = (Holds (<[K := root']> file), Ok true))
     ∧ (∀ P rest, removelast S = P ++ rest →
          (∃ m', lookup_path root' P = Some (JDict m'))
          ∧ (lookup_path root P = None →
             lookup_path root' P = Some (created rest (JDict ∅))))
     ∧ lookup_path root' S = None
     ∧ (lookup_path root S = None →
        is_Some (lookup_path root (removelast S)) →
        <[K := root']> file = file))
  ∧ (navigable root (removelast S) = false →
     ∃ e, delete_data file key = (Holds file, Raise e)
          ∧ (e = AttributeError ∨ e = TypeError)).
Proof.
  intros Hd HK HS. split; [| by apply (delete_data_stuck _ _ K S)].
  intros Hnav.
  destruct (walk_navigable _ root [] Hnav) as (m & ctx & Hloop).
  pose proof (delete_data_at _ _ _ _ _ _ _ Hd HK HS Hloop) as Hdel.
  remember (plug ctx (JDict (delete (List.last S []) m))) as root' eqn:Hroot'.
  (* the same document, read through [descend] *)
  assert (descend pop_method root S = Ok root') as Hr.
  { pose proof (find_nested_data_at file K S (u "delete") JNull root m ctx
                  HS HK Hloop) as Hat.
    destruct S as [|s tl]; [done |].
    rewrite find_nested_data_cons /getitem HK final_of_delete in Hat.
    cbn [mbind result_bind pop_method] in Hat. rewrite -Hroot' in Hat.
    destruct (descend pop_method root (s :: tl)) as [r|e]; [| done].
    injection Hat as Hat.
    apply (f_equal (λ d : document, d !! K)) in Hat.
    rewrite !lookup_insert_eq in Hat. by injection Hat as ->. }
  exists m, ctx, root'.
  split_and!; [done | | done | done | | | |].
  - intros value. by apply (set_data_at _ _ _ K S root).
  - intros Hdump. by rewrite Hdel update_database_dumpable.
  - intros P rest HP.
    assert (S = P ++ (rest ++ [List.last S []])) as Hpath.
    { rewrite app_assoc -HP. by apply app_removelast_last. }
    assert (rest ++ [List.last S []] ≠ []) as Hrest by (by destruct rest).
    rewrite {1}Hpath in Hr. split.
    + by eapply descend_level; [apply pop_method_dict | | exact Hr].
    + intros Hmiss.
      assert (P ≠ []) as HPne by (by intros ->).
      destruct (descend_fresh _ P _ root root' HPne Hrest Hmiss Hr)
        as (r' & Hr' & Hlook).
      rewrite descend_pop_empty // removelast_last in Hr'.
      by injection Hr' as <-.
  - by apply (descend_pop_removed _ root).
  - intros Hmiss Hlev.
    apply descend_pop_noop in Hr; [| done..]. subst root'. rewrite Hr.
    by apply insert_id.
Qed.

Lemma delete_data_nested_witness :
  let key := u "users/user2/pets/cat" in
  navigable (JDict {[ u "user1" := JDict {[ u "age" := JStr (u "30") ]} ]})
    [u "user2"; u "pets"] = true
  ∧ ∃ root',
      delete_data example_db key
      = (Holds (<[u "users" := root']> example_db), Ok true)
      ∧ lookup_path root' [u "user2"] = Some (JDict {[ u "pets" := JDict ∅ ]}).
Proof.
  intros key.
  destruct (delete_data_nested example_db key (u "users")
              [u "user2"; u "pets"; u "cat"]
              (JDict {[ u "user1" := JDict {[ u "age" := JStr (u "30") ]} ]}))
    as [Hgo _]; [by vm_compute | by vm_compute | done |].
  split; [by vm_compute |].
  destruct (Hgo ltac:(by vm_compute))
    as (m & ctx & root' & Hloop & _ & Hroot' & _ & Hdel & Hlev & _).
  vm_compute in Hloop. injection Hloop as <- <-.
  exists root'. split.
  - apply Hdel. rewrite Hroot'. by vm_compute.
  - by apply (Hlev [u "user2"] [u "pets"]); vm_compute.
Defined.

(** C6 (as stated) fails: on a document that [json.dump] cannot write
    back (here a string that holds the surrogate U+D800, as [json.load]
    builds it from the escape [\ud800]), [delete_data] on an absent root
    key, with no sub-keys, raises in the persist step and does not leave
    the file as it was. *)
Lemma delete_data_absent_root_damages :
  let file : document :=
    {[ u "a" := JStr (u "x"); u "z" := JStr [0xD800] ]} in
  deserialize_key (u "b") = Ok (mkKeys (u "b") [])
  ∧ file !! u "b" = None
  ∧ delete_data file (u "b") = (Damaged, Raise ValueError).
Proof. by vm_compute. Qed.

(** C6 (amended). Whenever a first [delete_data] succeeds, a second
    [delete_data] with the same key succeeds and leaves the document that
    the first one persisted. With no sub-keys and the root key absent,
    [delete_data] returns [True] and persists the document it read,
    provided [json.dump] can write that document. *)
Theorem delete_data_idempotent (file : document) (key K : pystr)
    (S : list pystr) :
  deserialize_key key = Ok (mkKeys K S) →
  (∀ file1, delete_data file key = (Holds file1, Ok true) →
            delete_data file1 key = (Holds file1, Ok true))
  ∧ (S = [] → file !! K = None → dumpable (JDict file) = true →
     delete_data file key = (Holds file, Ok true)).
Proof.
  intros Hd. split.
  - intros file1. rewrite !(delete_data_parsed _ _ K S) //.
    destruct S as [|s tl].
    + intros Hdel. pose proof Hdel as [[= ->] _]%update_database_ok.
      by rewrite delete_delete_eq.
    + destruct (file !! K) as [root|] eqn:HK; [| done].
      destruct (descend pop_method root (s :: tl)) as [r|e] eqn:Hr; [| done].
      intros Hdel. pose proof Hdel as [[= ->] _]%update_database_ok.
      rewrite lookup_insert_eq.
      rewrite (descend_pop_idemp _ root r) //.
      by rewrite insert_insert_eq.
  - intros -> HK Hdump. rewrite (delete_data_parsed _ _ K []) //.
    rewrite delete_id //. by apply update_database_dumpable.
Qed.

Lemma delete_data_idempotent_witness :
  let key := u "users/user1/age" in
  delete_data example_db key
  = (Holds {[ u "users" := JDict {[ u "user1" := JDict ∅ ]} ]}, Ok true)
  ∧ delete_data {[ u "users" := JDict {[ u "user1" := JDict ∅ ]} ]} key
    = (Holds {[ u "users" := JDict {[ u "user1" := JDict ∅ ]} ]}, Ok true).
Proof.
  intros key. split; [by vm_compute |].
  apply (proj1 (delete_data_idempotent example_db key (u "users")
                  [u "user1"; u "age"] ltac:(by vm_compute))).
  by vm_compute.
Defined.

(** C7. [get_data] on a root key that is not in the document returns
    [None]; on a root key whose value is not a mapping, with sub-keys
    given, it returns that value and never looks at the sub-keys. *)
Theorem get_data_root_cases (file : document) (key K : pystr)
    (S : list pystr) :
  deserialize_key key = Ok (mkKeys K S) →
  (file !! K = None → get_data file key = Ok JNull)
  ∧ (∀ root, file !! K = Some root → isinstance_dict root = false →
             S ≠ [] → get_data file key = Ok root).
Proof.
  intros Hd. rewrite (get_data_parsed _ _ K S) //. split.
  - intros ->. by rewrite /= andb_false_r.
  - intros root -> Hroot _. by rewrite /= Hroot andb_false_r.
Qed.

Lemma get_data_root_cases_witness :
  get_data {[ u "motd" := JStr (u "hello") ]} (u "absent/x") = Ok JNull
  ∧ get_data {[ u "motd" := JStr (u "hello") ]} (u "motd/x/y") = Ok (JStr (u "hello")).
Proof.
  split.
  - apply (proj1 (get_data_root_cases {[ u "motd" := JStr (u "hello") ]}
                    (u "absent/x") (u "absent") [u "x"] ltac:(by vm_compute))).
    by vm_compute.
  - apply (proj2 (get_data_root_cases {[ u "motd" := JStr (u "hello") ]}
                    (u "motd/x/y") (u "motd") [u "x"; u "y"] ltac:(by vm_compute)));
      by vm_compute.
Defined.

(** C9. Whenever the persist step returns a value, that value is [True],
    and whenever [set_data] or [delete_data] returns a value, that value
    is [True]. *)
Theorem mutations_return_true (file : document) (key : pystr) (value : json)
    (b : bool) :
  (set_data file key value).2 = Ok b ∨ (delete_data file key).2 = Ok b →
  b = true ∧ ∀ db b', (update_database db).2 = Ok b' → b' = true.
Proof.
  assert (∀ db b', (update_database db).2 = Ok b' → b' = true) as Hup.
  { intros db b'. unfold update_database. by destruct (dumpable _); intros [= <-]. }
  intros Hr. split; [| exact Hup].
  destruct (deserialize_key_total key) as (K & S & Hd & _).
  destruct Hr as [Hr | Hr].
  - destruct (file !! K) as [root|] eqn:HK.
    + rewrite (set_data_parsed _ _ _ K S root) // in Hr.
      destruct S as [|s tl]; [by apply Hup in Hr |].
      destruct (descend _ root (s :: tl)); [by apply Hup in Hr | done].
    + by rewrite (set_data_absent _ _ _ K S) in Hr.
  - rewrite (delete_data_parsed _ _ K S) // in Hr.
    destruct S as [|s tl]; [by apply Hup in Hr |].
    destruct (file !! K) as [root|]; [| done].
    destruct (descend _ root (s :: tl)); [by apply Hup in Hr | done].
Qed.

Lemma mutations_return_true_witness :
  (delete_data example_db (u "nobody")).2 = Ok true
  ∧ ∀ db b', (update_database db).2 = Ok b' → b' = true.
Proof.
  split; [by vm_compute |].
  apply (mutations_return_true example_db (u "nobody") JNull true).
  right. by vm_compute.
Defined.

(** C10. With sub-keys given and the root key [K] absent, [delete_data]
    raises the [KeyError] of [db_content[key]], carrying [K]: neither
    [KeyNotFoundError] nor a value is returned, and the file keeps the
    document it held. *)
Theorem delete_data_absent_root_nested (file : document) (key K : pystr)
    (S : list pystr) :
  deserialize_key key = Ok (mkKeys K S) →
  file !! K = None →
  S ≠ [] →
  delete_data file key = (Holds file, Raise (KeyError K))
  ∧ (∀ k, (delete_data file key).2 ≠ Raise (KeyNotFoundError k))
  ∧ (∀ b, (delete_data file key).2 ≠ Ok b).
Proof.
  intros Hd HK HS. rewrite (delete_data_parsed _ _ K S) // HK.
  by destruct S.
Qed.

Lemma delete_data_absent_root_nested_witness :
  delete_data example_db (u "missing/x")
  = (Holds example_db, Raise (KeyError (u "missing"))).
Proof.
  apply (delete_data_absent_root_nested example_db (u "missing/x")
           (u "missing") [u "x"]); by vm_compute.
Defined.

(** * Further properties of the engine *)

(** ** Reading *)

Lemma get_loop_lookup S : ∀ root v,
  lookup_path root S = Some v → get_loop root S = Ok v.
Proof.
  induction S as [|k S IH]; intros root v Hlook.
  - by injection Hlook as ->.
  - destruct root as [| | | | | |m]; try done.
    cbn [lookup_path] in Hlook.
    destruct (m !! k) as [v1|] eqn:Hk; [| done].
    cbn [mbind option_bind] in Hlook. rewrite /= Hk /=.
    destruct (is_none v1) eqn:Hn; [| by apply IH].
    destruct v1; try done. destruct S; [by injection Hlook as <- | done].
Qed.

Lemma get_loop_raises S : ∀ data e,
  get_loop data S = Raise e →
  e = AttributeError
  ∧ (isinstance_dict data = true → (2 ≤ List.length S)%nat).
Proof.
  induction S as [|k S IH]; intros data e; [done |].
  destruct data as [| | | | | |m]; try by intros [= <-].
  cbn [get_loop get_method mbind result_bind].
  destruct (is_none _) eqn:Hn; [done |].
  intros Hr. destruct (IH _ _ Hr) as [-> _]. split; [done |].
  intros _. destruct S; [done | simpl; lia].
Qed.

(** The value stored under the path of the key is the value read. *)
Theorem get_data_reads_path (file : document) (key K : pystr)
    (S : list pystr) (root v : json) :
  deserialize_key key = Ok (mkKeys K S) →
  file !! K = Some root →
  lookup_path root S = Some v →
  get_data file key = Ok v.
Proof.
  intros Hd HK Hlook. rewrite (get_data_parsed _ _ K S) // HK. cbn [default].
  destruct S as [|s tl]; [by injection Hlook as -> |].
  destruct root as [| | | | | |m]; try done.
  rewrite has_subkeys_cons. by apply get_loop_lookup.
Qed.

Lemma get_data_reads_path_witness :
  get_data example_db (u "users/user1")
  = Ok (JDict {[ u "age" := JStr (u "30") ]}).
Proof.
  apply (get_data_reads_path example_db (u "users/user1") (u "users")
           [u "user1"]
           (JDict {[ u "user1" := JDict {[ u "age" := JStr (u "30") ]} ]}));
    by vm_compute.
Defined.

(** [get_data] raises nothing but [AttributeError], and only when the key
    has at least two sub-keys. *)
Theorem get_data_raises_only_attribute_error (file : document) (key K : pystr)
    (S : list pystr) (e : exn) :
  deserialize_key key = Ok (mkKeys K S) →
  get_data file key = Raise e →
  e = AttributeError ∧ (2 ≤ List.length S)%nat.
Proof.
  intros Hd. rewrite (get_data_parsed _ _ K S) //. cbn zeta.
  destruct (has_subkeys S); [| done].
  destruct (isinstance_dict _) eqn:Hdict; [| done]. cbn [andb].
  intros Hr. destruct (get_loop_raises _ _ _ Hr) as [-> Hlen]. auto.
Qed.

Lemma get_data_raises_only_attribute_error_witness :
  get_data example_db (u "users/user1/age/x") = Raise AttributeError
  ∧ (2 ≤ List.length [u "user1"; u "age"; u "x"])%nat.
Proof.
  split; [by vm_compute |].
  apply (get_data_raises_only_attribute_error example_db
           (u "users/user1/age/x") (u "users")
           [u "user1"; u "age"; u "x"] AttributeError); by vm_compute.
Defined.

(** ** When the mutations go through, and what they raise *)



Lemma update_database_holds db file' :
  (update_database db).1 = Holds file' → file' = db.
Proof.
  unfold update_database. destruct (dumpable (JDict db)); [| done].
  by intros [= <-].
Qed.







(** ** What the mutations leave alone *)

Lemma insert_present_dom (file : document) K v root :
  file !! K = Some root → dom (<[K := v]> file) = dom file.
Proof.
  intros HK%elem_of_dom_2. rewrite dom_insert_L.
  apply subseteq_union_1_L. by apply singleton_subseteq_l.
Qed.

(** [set_data] never adds and never removes a root key: whenever the file
    holds a document after the call, its root keys are those of the
    document read. *)
Theorem set_data_keeps_root_keys (file file' : document) (key : pystr)
    (value : json) :
  (set_data file key value).1 = Holds file' →
  dom file' = dom file.
Proof.
  destruct (deserialize_key_total key) as (K & S & Hd & _).
  destruct (file !! K) as [root|] eqn:HK.
  - rewrite (set_data_parsed _ _ _ K S root) //.
    destruct S as [|s tl].
    + intros ->%update_database_holds. by apply (insert_present_dom _ _ _ root).
    + destruct (descend _ root (s :: tl)); [| by intros [= <-]].
      intros ->%update_database_holds. by apply (insert_present_dom _ _ _ root).
  - rewrite (set_data_absent _ _ _ K S) //. by intros [= <-].
Qed.

Lemma set_data_keeps_root_keys_witness :
  let file' : document :=
    {[ u "users" := JDict {[ u "user1" := JDict {[ u "age" := JInt 31 ]} ]} ]} in
  set_data example_db (u "users/user1/age") (JInt 31) = (Holds file', Ok true)
  ∧ dom file' = dom example_db.
Proof.
  intros file'. split; [by vm_compute |].
  apply (set_data_keeps_root_keys example_db file' (u "users/user1/age") (JInt 31)).
  by vm_compute.
Defined.





(** Below the root key: a path that leaves the path of the key at some
    level is not affected by the descent. *)
Section DescendFrame.
Variable final : json → pystr → result json.
Hypothesis final_local : ∀ c k c',
  final c k = Ok c' →
  ∃ m m', c = JDict m ∧ c' = JDict m' ∧ ∀ q, q ≠ k → m' !! q = m !! q.

Lemma descend_frame P : ∀ cur r s S1 q Q1,
  descend final cur (P ++ s :: S1) = Ok r → q ≠ s →
  lookup_path r (P ++ q :: Q1) = lookup_path cur (P ++ q :: Q1).
Proof.
  induction P as [|k P IH]; intros cur r s S1 q Q1 Hd Hq.
  - destruct S1 as [|s' S1].
    + apply final_local in Hd as (m & m' & -> & -> & Hm).
      by rewrite /= Hm.
    + apply descend_cons_inv in Hd as (m & r' & -> & _ & ->).
      rewrite /= lookup_insert_ne; [congruence | done].
  - destruct (P ++ s :: S1) as [|k' tl] eqn:Htl; [by destruct P |].
    simpl in Hd. rewrite Htl in Hd.
    apply descend_cons_inv in Hd as (m & r' & -> & Hr' & ->).
    rewrite -Htl in Hr'. apply (IH _ _ _ _ q Q1) in Hr'; [| done].
    cbn [app lookup_path]. rewrite lookup_insert_eq. cbn [mbind option_bind].
    rewrite Hr'. destruct (m !! k) as [c|]; [done |].
    cbn [default mbind option_bind]. apply lookup_path_empty. by destruct P.
Qed.

End DescendFrame.

Lemma setitem_local value c k c' :
  setitem c k value = Ok c' →
  ∃ m m', c = JDict m ∧ c' = JDict m' ∧ ∀ q, q ≠ k → m' !! q = m !! q.
Proof.
  destruct c as [| | | | | |m]; try done. intros [= <-].
  exists m, (<[k := value]> m). split_and!; [done | done |].
  intros q Hq. rewrite lookup_insert_ne; [congruence | done].
Qed.

Lemma pop_method_local c k c' :
  pop_method c k = Ok c' →
  ∃ m m', c = JDict m ∧ c' = JDict m' ∧ ∀ q, q ≠ k → m' !! q = m !! q.
Proof.
  destruct c as [| | | | | |m]; try done. intros [= <-].
  exists m, (delete k m). split_and!; [done | done |].
  intros q Hq. rewrite lookup_delete_ne; [congruence | done].
Qed.

(** A successful [set_data] or [delete_data] leaves every path that parts
    from the path of the key, at any level below the root key, as it
    was. *)
Theorem mutations_keep_diverging_paths (file file' : document)
    (key K : pystr) (P S1 Q1 : list pystr) (s q : pystr) (root value : json) :
  deserialize_key key = Ok (mkKeys K (P ++ s :: S1)) →
  file !! K = Some root →
  q ≠ s →
  set_data file key value = (Holds file', Ok true)
  ∨ delete_data file key = (Holds file', Ok true) →
  ∃ root', file' !! K = Some root'
           ∧ lookup_path root' (P ++ q :: Q1) = lookup_path root (P ++ q :: Q1).
Proof.
  intros Hd HK Hq [Hop | Hop].
  - rewrite (set_data_parsed _ _ _ K (P ++ s :: S1) root) // in Hop.
    destruct (P ++ s :: S1) as [|x tl] eqn:HS; [by destruct P |].
    destruct (descend _ root (x :: tl)) as [r|e] eqn:Hr; [| done].
    apply update_database_ok in Hop as [[= ->] _].
    exists r. rewrite lookup_insert_eq. split; [done |].
    rewrite -HS in Hr.
    by apply (descend_frame _ (setitem_local value) P root r s S1).
  - rewrite (delete_data_parsed _ _ K (P ++ s :: S1)) // HK in Hop.
    destruct (P ++ s :: S1) as [|x tl] eqn:HS; [by destruct P |].
    destruct (descend _ root (x :: tl)) as [r|e] eqn:Hr; [| done].
    apply update_database_ok in Hop as [[= ->] _].
    exists r. rewrite lookup_insert_eq. split; [done |].
    rewrite -HS in Hr.
    by apply (descend_frame _ pop_method_local P root r s S1).
Qed.

Lemma mutations_keep_diverging_paths_witness :
  let file' : document := {[ u "users" := JDict {[ u "user1" := JDict ∅ ]} ]} in
  delete_data example_db (u "users/user1/age") = (Holds file', Ok true)
  ∧ ∃ root',
      file' !! u "users" = Some root'
      ∧ lookup_path root' [u "user1"; u "name"; u "first"]
        = lookup_path (JDict {[ u "user1" := JDict {[ u "age" := JStr (u "30") ]} ]})
            [u "user1"; u "name"; u "first"].
Proof.
  intros file'. split; [by vm_compute |].
  apply (mutations_keep_diverging_paths example_db file' (u "users/user1/age")
           (u "users") [u "user1"] [] [u "first"] (u "age") (u "name")
           (JDict {[ u "user1" := JDict {[ u "age" := JStr (u "30") ]} ]}) JNull);
    [by vm_compute | by vm_compute | by vm_compute |].
  right. by vm_compute.
Defined.

(** ** How the operations compose *)

(** A second descent along the same path forgets the first one when its
    last statement overrides the last statement of the first. *)
Section DescendTwice.
Variables first second : json → pystr → result json.
Hypothesis overrides : ∀ c k c',
  first c k = Ok c' → second c' k = second c k.

Lemma descend_twice path : ∀ cur r,
  descend first cur path = Ok r →
  path ≠ [] →
  descend second r path = descend second cur path.
Proof.
  induction path as [|k [|k' rest] IH]; intros cur r Hd Hne; [done | |].
  - by apply overrides.
  - apply descend_cons_inv in Hd as (m & r' & -> & Hr' & ->).
    rewrite !descend_cons lookup_insert_eq. cbn [default].
    rewrite (IH _ _ Hr') //.
    destruct (descend second _ (k' :: rest)); [| done].
    by rewrite /= insert_insert_eq.
Qed.

Hypothesis second_defined : ∀ c k c',
  first c k = Ok c' → ∃ c'', second c k = Ok c''.

Lemma descend_defined path : ∀ cur r,
  descend first cur path = Ok r → ∃ r2, descend second cur path = Ok r2.
Proof.
  induction path as [|k [|k' rest] IH]; intros cur r Hd.
  - by exists cur.
  - exact (second_defined _ _ _ Hd).
  - apply descend_cons_inv in Hd as (m & r' & -> & Hr' & ->).
    apply IH in Hr' as [r2 Hr2]. rewrite descend_cons Hr2. by eexists.
Qed.

End DescendTwice.


Lemma pop_over_setitem v c k c' :
  setitem c k v = Ok c' → pop_method c' k = pop_method c k.
Proof.
  destruct c; try done. intros [= <-]. by rewrite /= delete_insert_eq.
Qed.



Lemma pop_defined_after_set v c k c' :
  setitem c k v = Ok c' → ∃ c'', pop_method c k = Ok c''.
Proof. destruct c; try done. by eexists. Qed.




(** A [delete_data] after a successful [set_data] with the same key undoes
    the write and does what a [delete_data] alone would have done. *)
Theorem delete_data_after_set_data (file file1 : document) (key : pystr)
    (value : json) :
  set_data file key value = (Holds file1, Ok true) →
  delete_data file1 key = delete_data file key.
Proof.
  intros Hset.
  destruct (deserialize_key_total key) as (K & S & Hd & _).
  destruct (file !! K) as [root|] eqn:HK;
    [| by rewrite (set_data_absent _ _ _ K S) in Hset].
  rewrite (set_data_parsed file key value K S root) // in Hset.
  rewrite !(delete_data_parsed _ key K S) //.
  destruct S as [|s tl].
  - apply update_database_ok in Hset as [[= ->] _].
    f_equal. apply delete_insert_eq.
  - destruct (descend (λ c k, setitem c k value) root (s :: tl)) as [r|e] eqn:Hr;
      [| done].
    apply update_database_ok in Hset as [[= ->] _].
    rewrite lookup_insert_eq HK.
    rewrite (descend_twice _ _ (pop_over_setitem value) _ root r) //.
    destruct (descend_defined _ _ (pop_defined_after_set value) _ _ _ Hr)
      as [r2 ->].
    f_equal. apply insert_insert_eq.
Qed.

Lemma delete_data_after_set_data_witness :
  let file1 : document :=
    {[ u "users" := JDict {[ u "user1" := JDict {[ u "age" := JInt 31 ]} ]} ]} in
  set_data example_db (u "users/user1/age") (JInt 31) = (Holds file1, Ok true)
  ∧ delete_data file1 (u "users/user1/age")
    = delete_data example_db (u "users/user1/age").
Proof.
  intros file1. split; [by vm_compute |].
  apply (delete_data_after_set_data example_db file1 (u "users/user1/age") (JInt 31)).
  by vm_compute.
Defined.



(** A root key that was deleted cannot be written again: after a
    [delete_data] without sub-keys, [set_data] on any path under that
    root key raises [KeyNotFoundError] and the file keeps its document. *)
Theorem set_data_after_root_delete (file file1 : document)
    (key key' K : pystr) (S' : list pystr) (b : bool) (value : json) :
  deserialize_key key = Ok (mkKeys K []) →
  deserialize_key key' = Ok (mkKeys K S') →
  delete_data file key = (Holds file1, Ok b) →
  set_data file1 key' value = (Holds file1, Raise (KeyNotFoundError K)).
Proof.
  intros Hd Hd'. rewrite (delete_data_parsed _ _ K []) //.
  intros [[= ->] _]%update_database_ok.
  apply (set_data_absent _ _ _ K S'); [done |]. apply lookup_delete_eq.
Qed.

Lemma set_data_after_root_delete_witness :
  delete_data example_db (u "users") = (Holds ∅, Ok true)
  ∧ set_data ∅ (u "users/user1") JNull
    = (Holds ∅, Raise (KeyNotFoundError (u "users"))).
Proof.
  split; [by vm_compute |].
  apply (set_data_after_root_delete example_db ∅ (u "users") (u "users/user1")
           (u "users") [u "user1"] true); by vm_compute.
Defined.

Lemma descend_pop_get_loop path : ∀ cur r,
  path ≠ [] → descend pop_method cur path = Ok r →
  get_loop r path = Ok JNull.
Proof.
  induction path as [|k [|k' rest] IH]; intros cur r Hne Hd; [done | |].
  - destruct cur as [| | | | | |m]; try done.
    injection Hd as <-. by rewrite /= lookup_delete_eq.
  - apply descend_cons_inv in Hd as (m & r' & -> & Hr' & ->).
    pose proof Hr' as Hdict.
    apply descend_is_dict in Hdict; [| apply pop_method_dict | done].
    cbn [get_loop get_method mbind result_bind].
    rewrite lookup_insert_eq. cbn [default].
    rewrite (dict_not_none _ Hdict). by apply (IH _ _ ltac:(done) Hr').
Qed.

(** After a successful [delete_data], [get_data] with the same key returns
    [None]. *)
Theorem get_data_after_delete_data (file file1 : document) (key : pystr)
    (b : bool) :
  delete_data file key = (Holds file1, Ok b) →
  get_data file1 key = Ok JNull.
Proof.
  destruct (deserialize_key_total key) as (K & S & Hd & _).
  rewrite (delete_data_parsed _ _ K S) // (get_data_parsed _ _ K S) //.
  destruct S as [|s tl].
  - intros [[= ->] _]%update_database_ok. by rewrite lookup_delete_eq.
  - destruct (file !! K) as [root|] eqn:HK; [| done].
    destruct (descend pop_method root (s :: tl)) as [r|e] eqn:Hr; [| done].
    intros [[= ->] _]%update_database_ok.
    rewrite lookup_insert_eq. cbn [default].
    pose proof Hr as Hdict.
    apply descend_is_dict in Hdict; [| apply pop_method_dict | done].
    rewrite has_subkeys_cons Hdict /=.
    by apply (descend_pop_get_loop (s :: tl) root).
Qed.

Lemma get_data_after_delete_data_witness :
  let file1 : document := {[ u "users" := JDict {[ u "user1" := JDict ∅ ]} ]} in
  delete_data example_db (u "users/user1/age") = (Holds file1, Ok true)
  ∧ get_data file1 (u "users/user1/age") = Ok JNull.
Proof.
  intros file1. split; [by vm_compute |].
  apply (get_data_after_delete_data example_db file1 (u "users/user1/age") true).
  by vm_compute.
Defined.

(** * Further properties of the key parser *)

Module PyStrMore.
Import PyStr.

Lemma lstrip_all_space s : all_space s → lstrip s = [].
Proof.
  induction 1 as [|c s Hc _ IH]; [done |]. by rewrite /= Hc.
Qed.

Lemma lstrip_app_space lead s : all_space lead → lstrip (lead ++ s) = lstrip s.
Proof.
  induction 1 as [|c lead Hc _ IH]; [done |]. by rewrite /= Hc.
Qed.

Lemma lstrip_app s t :
  lstrip (s ++ t) = match lstrip s with [] => lstrip t | _ => lstrip s ++ t end.
Proof.
  induction s as [|c s IH]; [done |].
  simpl. by destruct (isspace c).
Qed.

Lemma rstrip_app_space s trail : all_space trail → rstrip (s ++ trail) = rstrip s.
Proof.
  intros Ht. rewrite /rstrip reverse_app lstrip_app_space //.
  by apply Forall_reverse.
Qed.

(** Whitespace around a key is not part of it. *)
Lemma strip_app_space lead s trail :
  all_space lead → all_space trail → strip (lead ++ s ++ trail) = strip s.
Proof.
  intros Hl Ht. rewrite /strip lstrip_app_space // lstrip_app.
  destruct (lstrip s) as [|c s'] eqn:Hs.
  - by rewrite lstrip_all_space.
  - by rewrite rstrip_app_space.
Qed.

Lemma lstrip_id s : (∀ c, head s = Some c → isspace c = false) → lstrip s = s.
Proof.
  destruct s as [|c s]; [done |]. intros Hh. by rewrite /= Hh.
Qed.

Lemma strip_id s :
  (∀ c, head s = Some c → isspace c = false) →
  (∀ c, last s = Some c → isspace c = false) →
  strip s = s.
Proof.
  intros Hh Hl. rewrite /strip lstrip_id // /rstrip lstrip_id.
  - intros c. rewrite head_reverse. apply Hl.
  - apply reverse_involutive.
Qed.

Lemma split_app_sep sep seg t :
  sep ∉ seg → split sep (seg ++ sep :: t) = seg :: split sep t.
Proof.
  induction seg as [|c seg IH]; simpl.
  - by rewrite N.eqb_refl.
  - rewrite not_elem_of_cons. intros [Hne Hseg].
    destruct (N.eqb_spec c sep) as [-> | _]; [done |]. by rewrite IH.
Qed.

(** [split] undoes [join] on segments that hold no separator. *)
Lemma split_join sep segs :
  segs ≠ [] → Forall (λ seg, sep ∉ seg) segs →
  split sep (join sep segs) = segs.
Proof.
  induction segs as [|seg [|seg' segs] IH]; intros Hne Hall; [done | |].
  - apply PyStrFacts.split_no_sep. by inversion Hall.
  - inversion Hall as [|? ? Hseg Hrest]; subst.
    rewrite PyStrFacts.join_cons // split_app_sep // IH //.
Qed.

Lemma split_length sep s :
  List.length (split sep s) = S (List.length (filter (λ c, c = sep) s)).
Proof.
  induction s as [|c s IH]; [done |].
  simpl. destruct (N.eqb_spec c sep) as [-> | Hne].
  - by rewrite filter_cons_True //= IH.
  - rewrite filter_cons_False //.
    pose proof (PyStrFacts.split_not_nil sep s) as Hnn.
    by destruct (split sep s).
Qed.

Lemma filter_all_space (sep : N) s :
  isspace sep = false → all_space s → filter (λ c, c = sep) s = [].
Proof.
  intros Hsep. induction 1 as [|c s Hc _ IH]; [done |].
  rewrite filter_cons_False //. intros ->. congruence.
Qed.

End PyStrMore.

(** Whitespace before and after a key does not change the path it
    names. *)
Theorem deserialize_key_ignores_outer_space (lead key trail : pystr) :
  PyStr.all_space lead → PyStr.all_space trail →
  deserialize_key (lead ++ key ++ trail) = deserialize_key key.
Proof.
  intros Hl Ht. by rewrite /deserialize_key PyStrMore.strip_app_space.
Qed.

Lemma deserialize_key_ignores_outer_space_witness :
  deserialize_key (u "  " ++ u "users/user1" ++ [0x0A; 0x3000])
  = deserialize_key (u "users/user1").
Proof.
  apply deserialize_key_ignores_outer_space;
    repeat constructor.
Defined.

(** Parsing undoes the writing of a path: a root key and sub-keys that
    hold no ['/'], joined with ['/'] into a key that neither starts nor
    ends with whitespace, are what the parser returns. *)
Theorem deserialize_key_of_join (K : pystr) (S : list pystr) :
  Forall (λ seg, SEP ∉ seg) (K :: S) →
  (∀ c, head (PyStr.join SEP (K :: S)) = Some c → PyStr.isspace c = false) →
  (∀ c, last (PyStr.join SEP (K :: S)) = Some c → PyStr.isspace c = false) →
  deserialize_key (PyStr.join SEP (K :: S)) = Ok (mkKeys K S).
Proof.
  intros Hall Hh Hl.
  by rewrite /deserialize_key PyStrMore.strip_id // PyStrMore.split_join.
Qed.

Lemma deserialize_key_of_join_witness :
  deserialize_key (PyStr.join SEP [u "users"; u "user 1"; u ""; u "age"])
  = Ok (mkKeys (u "users") [u "user 1"; u ""; u "age"]).
Proof.
  apply deserialize_key_of_join.
  - apply (bool_decide_unpack _). by vm_compute.
  - intros c. vm_compute. by intros [= <-].
  - intros c. vm_compute. by intros [= <-].
Defined.

(** The key has as many sub-keys as it has ['/']. *)
Theorem deserialize_key_counts_separators (key K : pystr) (S : list pystr) :
  deserialize_key key = Ok (mkKeys K S) →
  List.length S = List.length (filter (λ c, c = SEP) key).
Proof.
  intros Hs%deserialize_key_inv.
  pose proof (PyStrMore.split_length SEP (PyStr.strip key)) as Hlen.
  rewrite Hs /= in Hlen. injection Hlen as ->.
  destruct (PyStrFacts.strip_decompose key) as (lead & trail & Heq & Hl & Ht).
  rewrite {2}Heq !filter_app !length_app.
  rewrite (PyStrMore.filter_all_space SEP lead) //.
  by rewrite (PyStrMore.filter_all_space SEP trail) //= Nat.add_0_r.
Qed.

Lemma deserialize_key_counts_separators_witness :
  List.length [u "b"; u ""; u "c"] = List.length (filter (λ c, c = SEP) (u " a/b//c ")).
Proof.
  apply (deserialize_key_counts_separators (u " a/b//c ") (u "a")).
  by vm_compute.
Defined.

(** * Properties of the exception text *)

(** [str] and [repr] of a [KeyNotFoundError] are the text given to
    [Exception.__init__]; the text names the key without ambiguity; and
    calling the class on what [__reduce__] returns builds the exception
    again. *)
Theorem KeyNotFoundError_text (key key' : pystr) :
  KeyNotFoundError_str (KeyNotFoundError_init key)
  = KeyNotFoundError_repr (KeyNotFoundError_init key)
  ∧ knf_args (KeyNotFoundError_init key)
    = [KeyNotFoundError_str (KeyNotFoundError_init key)]
  ∧ (KeyNotFoundError_str (KeyNotFoundError_init key)
     = KeyNotFoundError_str (KeyNotFoundError_init key') → key = key')
  ∧ KeyNotFoundError_init (KeyNotFoundError_reduce (KeyNotFoundError_init key))
    = KeyNotFoundError_init key.
Proof.
  split_and!; [done | done | | done].
  rewrite /KeyNotFoundError_str /KeyNotFoundError_message.
  cbn [KeyNotFoundError_init knf_key].
  intros Heq%app_inv_head. by apply app_inv_tail in Heq.
Qed.

(** * Properties of the connections *)

(** The first connection checks its path: with no instance yet,
    [LocalDatabase(path)] builds the instance, with its path, no access
    and no modification recorded, and the instant of the call as creation
    time, exactly when the path names a regular file and ends with
    [.json]; otherwise it raises [FileNotFoundError], no instance is
    recorded and nothing is printed. The files are not touched. *)
Theorem first_connection_checks_path (w : Lifecycle.world) (fresh : N)
    (now : Lifecycle.time) (p : pystr) :
  Lifecycle.instance w = None →
  (Lifecycle.path_isfile (Lifecycle.fs w) p = true
   ∧ Lifecycle.endswith p (u ".json") = true →
   ∃ w', Lifecycle.LocalDatabase w fresh now p = (w', Lifecycle.Returned fresh)
         ∧ Lifecycle.instance w' = Some fresh
         ∧ Lifecycle.heap w' !! fresh
           = Some (Lifecycle.mkAttrs p None None now)
         ∧ Lifecycle.fs w' = Lifecycle.fs w)
  ∧ (Lifecycle.path_isfile (Lifecycle.fs w) p = false
     ∨ Lifecycle.endswith p (u ".json") = false →
     ∃ message,
       Lifecycle.LocalDatabase w fresh now p
       = (w, Lifecycle.OsRaised (Lifecycle.FileNotFoundError message))).
Proof.
  intros Hinst. unfold Lifecycle.LocalDatabase, Lifecycle.new. rewrite Hinst.
  split.
  - intros [Hfile Hjson]. rewrite Hfile Hjson.
    assert (Lifecycle.path_exists (Lifecycle.fs w) p = true) as ->.
    { apply bool_decide_eq_true_2. unfold Lifecycle.path_isfile in Hfile.
      by destruct (Lifecycle.fs w !! p). }
    cbn [negb orb]. eexists. split_and!; [done | done | | done].
    by rewrite /= lookup_insert_eq.
  - intros Hbad. eexists.
    destruct (Lifecycle.path_exists _ _); [| done].
    destruct Hbad as [-> | ->]; [done |].
    by destruct (Lifecycle.path_isfile _ _).
Qed.

Lemma first_connection_checks_path_witness :
  let w := Lifecycle.mkWorld None ∅
             {[ u "db.json" := Lifecycle.RegularFile (Holds example_db);
                u "dir.json" := Lifecycle.Directory ]} [] in
  (∃ w', Lifecycle.LocalDatabase w 7 1000 (u "db.json") = (w', Lifecycle.Returned 7)
         ∧ Lifecycle.instance w' = Some 7)
  ∧ (∃ message,
       Lifecycle.LocalDatabase w 7 1000 (u "dir.json")
       = (w, Lifecycle.OsRaised (Lifecycle.FileNotFoundError message))).
Proof.
  intros w. split.
  - destruct (first_connection_checks_path w 7 1000 (u "db.json") eq_refl)
      as [Hgood _].
    destruct Hgood as (w' & Hcall & Hinst & _); [by vm_compute |].
    by exists w'.
  - destruct (first_connection_checks_path w 7 1000 (u "dir.json") eq_refl)
      as [_ Hbad].
    apply Hbad. left. by vm_compute.
Defined.

(** A later connection checks nothing: once an instance exists,
    [LocalDatabase(path)] returns that same object for every path, and
    [__init__] runs on it again: its path is the new one, whatever it
    names, its access and modification times are forgotten and its
    creation time is the instant of this call. The other objects and the
    files are not touched. *)
Theorem later_connection_rebinds (w : Lifecycle.world) (o fresh : N)
    (now : Lifecycle.time) (p : pystr) :
  Lifecycle.instance w = Some o →
  ∃ w', Lifecycle.LocalDatabase w fresh now p = (w', Lifecycle.Returned o)
        ∧ Lifecycle.instance w' = Some o
        ∧ Lifecycle.heap w' !! o = Some (Lifecycle.mkAttrs p None None now)
        ∧ (∀ o', o' ≠ o → Lifecycle.heap w' !! o' = Lifecycle.heap w !! o')
        ∧ Lifecycle.fs w' = Lifecycle.fs w.
Proof.
  intros Hinst. unfold Lifecycle.LocalDatabase, Lifecycle.new. rewrite Hinst.
  eexists. split_and!; [done | done | | | done].
  - by rewrite /= lookup_insert_eq.
  - intros o' Ho'. rewrite /= lookup_insert_ne; [congruence | done].
Qed.

Lemma later_connection_rebinds_witness :
  let w := Lifecycle.mkWorld (Some 7)
             {[ 7%N := Lifecycle.mkAttrs (u "db.json") (Some 5%N) None 1%N ]}
             {[ u "db.json" := Lifecycle.RegularFile (Holds example_db) ]} [] in
  ∃ w', Lifecycle.LocalDatabase w 8 1000 (u "nowhere.txt")
        = (w', Lifecycle.Returned 7)
        ∧ Lifecycle.heap w' !! 7%N
          = Some (Lifecycle.mkAttrs (u "nowhere.txt") None None 1000).
Proof.
  intros w.
  destruct (later_connection_rebinds w 7 8 1000 (u "nowhere.txt") eq_refl)
    as (w' & Hcall & _ & Hheap & _).
  by exists w'.
Defined.

(** After a later connection with a path that names nothing, every
    operation through the object raises the [FileNotFoundError] of [open]
    and records no time. *)
Theorem operations_after_rebinding_to_missing_file (w w' : Lifecycle.world)
    (o fresh : N) (now now' : Lifecycle.time) (p key : pystr) (value : json) :
  Lifecycle.instance w = Some o →
  Lifecycle.fs w !! p = None →
  Lifecycle.LocalDatabase w fresh now p = (w', Lifecycle.Returned o) →
  Lifecycle.method_get_data w' o now' key
  = (w', Lifecycle.OsRaised (Lifecycle.NoSuchFile p))
  ∧ Lifecycle.method_set_data w' o now' key value
    = (w', Lifecycle.OsRaised (Lifecycle.NoSuchFile p))
  ∧ Lifecycle.method_delete_data w' o now' key
    = (w', Lifecycle.OsRaised (Lifecycle.NoSuchFile p)).
Proof.
  intros Hinst Hp. unfold Lifecycle.LocalDatabase, Lifecycle.new.
  rewrite Hinst. intros [= <-].
  unfold Lifecycle.method_get_data, Lifecycle.method_set_data,
    Lifecycle.method_delete_data, Lifecycle.open.
  by rewrite /= lookup_insert_eq /= Hp.
Qed.

Lemma operations_after_rebinding_to_missing_file_witness :
  let w := Lifecycle.mkWorld (Some 7)
             {[ 7%N := Lifecycle.mkAttrs (u "db.json") None None 1%N ]}
             {[ u "db.json" := Lifecycle.RegularFile (Holds example_db) ]} [] in
  let w' := (Lifecycle.LocalDatabase w 8 1000 (u "gone.json")).1 in
  Lifecycle.method_get_data w' 7 1001 (u "users")
  = (w', Lifecycle.OsRaised (Lifecycle.NoSuchFile (u "gone.json"))).
Proof.
  intros w w'.
  apply (operations_after_rebinding_to_missing_file w w' 7 8 1000 1001
           (u "gone.json") (u "users") JNull); by vm_compute.
Defined.

(** Reading through a connection whose file opens returns what the engine
    reads in the document of the file, records the instant of the call as
    last access, also when the read raises, and changes neither the
    files nor the path, the modification time or the creation time of
    the connection. *)
Theorem reading_records_access (w : Lifecycle.world) (self : N)
    (a : Lifecycle.attrs) (file : document) (now : Lifecycle.time)
    (key : pystr) :
  Lifecycle.heap w !! self = Some a →
  Lifecycle.fs w !! Lifecycle.path a = Some (Lifecycle.RegularFile (Holds file)) →
  ∃ w', Lifecycle.method_get_data w self now key
        = (w', Lifecycle.of_result (get_data file key))
        ∧ Lifecycle.fs w' = Lifecycle.fs w
        ∧ Lifecycle.heap w' !! self
          = Some (Lifecycle.mkAttrs (Lifecycle.path a) (Some now)
                    (Lifecycle.last_modified a) (Lifecycle.created_at a)).
Proof.
  intros Hself Hfile. unfold Lifecycle.method_get_data, Lifecycle.open.
  rewrite Hself Hfile. eexists. split_and!; [done | done |].
  by rewrite /= lookup_insert_eq.
Qed.

Lemma reading_records_access_witness :
  let w := Lifecycle.mkWorld (Some 7)
             {[ 7%N := Lifecycle.mkAttrs (u "db.json") None (Some 3%N) 1%N ]}
             {[ u "db.json" := Lifecycle.RegularFile (Holds example_db) ]} [] in
  ∃ w', Lifecycle.method_get_data w 7 9 (u "users/user1/age/x")
        = (w', Lifecycle.Raised AttributeError)
        ∧ Lifecycle.heap w' !! 7%N
          = Some (Lifecycle.mkAttrs (u "db.json") (Some 9%N) (Some 3%N) 1%N).
Proof.
  intros w.
  destruct (reading_records_access w 7
              (Lifecycle.mkAttrs (u "db.json") None (Some 3%N) 1%N)
              example_db 9 (u "users/user1/age/x"))
    as (w' & Hcall & _ & Hheap); [by vm_compute | by vm_compute |].
  exists w'. split; [| exact Hheap].
  rewrite Hcall. by vm_compute.
Defined.


